(** * Pikachu Volleyball serve encoder: controller, keyboard and encoder

    A shallow embedding of the controller module (class
    [PikachuVolleyball], together with the serve-code encoder that lives at
    the bottom of the same file) and of [src/resources/js/keyboard.js].

    JavaScript numbers that the code only ever uses as small integers are
    modelled as [Z] (directions, flags, frame counters, scores) or as [nat]
    (the run counter of [concatListAsString], which is bounded by an array
    length).  A JavaScript value that is either a string or [undefined] is
    an [option string], [None] standing for [undefined]. *)

From Stdlib Require Import ZArith List String Ascii Bool Lia.
From Stdlib Require Import DecimalString DecimalNat.
Import ListNotations.
Local Open Scope string_scope.
Local Open Scope Z_scope.

(** ** JavaScript primitives used by the sources *)

(** [String(n)] for a non-negative integer [n] below 1e21: plain decimal
    digits without sign or leading zeros. *)
Definition numberToString (n : nat) : string :=
  NilZero.string_of_uint (Nat.to_uint n).

(** [s.slice(start)] for a non-negative [start]: drop [start] characters. *)
Fixpoint slice (start : nat) (s : string) : string :=
  match start, s with
  | O, _ => s
  | S _, EmptyString => EmptyString
  | S k, String _ rest => slice k rest
  end.

(** [a || b] on numbers: [a] when it is truthy (non-zero), otherwise [b]. *)
Definition js_or (a b : Z) : Z := if a =? 0 then b else a.

(** [x + count] where [x] is a string or [undefined] and [count] a number,
    followed by [result += ...]: string concatenation when [x] is a string,
    and the number [NaN] (printed as such) when [x] is [undefined]. *)
Definition plusCount (x : option string) (count : nat) : string :=
  match x with
  | Some s => s ++ numberToString count
  | None => "NaN"
  end.

(** Strict equality [===] on values that are strings or [undefined]. *)
Definition strictEq (a b : option string) : bool :=
  match a, b with
  | Some x, Some y => String.eqb x y
  | None, None => true
  | _, _ => false
  end.

(** ** physics.js: PikaUserInput (only its three fields are used here) *)

Record PikaUserInput : Type := mkInput {
  xDirection : Z;
  yDirection : Z;
  powerHit : Z
}.

(** ** The controller module: the encoder *)

(** [encodeUserInput(userInput, playerNum)], branch by branch.  Falling off
    the end of the function returns [undefined]. *)
Definition encodeUserInput (userInput : PikaUserInput) (playerNum : Z)
  : option string :=
  let x := xDirection userInput in
  let y := yDirection userInput in
  let h := powerHit userInput in
  if playerNum =? 1 then
    if h =? 1 then
      if (x =? -1) && (y =? -1) then Some "-ULH/"
      else if (x =? -1) && (y =? 0) then Some "-LH/"
      else if (x =? -1) && (y =? 1) then Some "-DLH/"
      else if (x =? 0) && (y =? -1) then Some "-UH/"
      else if (x =? 0) && (y =? 0) then Some "-H/"
      else if (x =? 0) && (y =? 1) then Some "-DH/"
      else if (x =? 1) && (y =? -1) then Some "-URH/"
      else if (x =? 1) && (y =? 0) then Some "-RH/"
      else if (x =? 1) && (y =? 1) then Some "-DRH/"
      else None
    else if h =? 0 then
      if (x =? -1) && (y =? -1) then Some "-UL/"
      else if (x =? -1) && (y =? 0) then Some "-L/"
      else if (x =? -1) && (y =? 1) then Some "-DL/"
      else if (x =? 0) && (y =? -1) then Some "-U/"
      else if (x =? 0) && (y =? 0) then Some "-/"
      else if (x =? 0) && (y =? 1) then Some "-D/"
      else if (x =? 1) && (y =? -1) then Some "-UR/"
      else if (x =? 1) && (y =? 0) then Some "-R/"
      else if (x =? 1) && (y =? 1) then Some "-DR/"
      else None
    else None
  else
    if h =? 1 then
      if (x =? -1) && (y =? -1) then Some "-/ULH"
      else if (x =? -1) && (y =? 0) then Some "-/LH"
      else if (x =? -1) && (y =? 1) then Some "-/DLH"
      else if (x =? 0) && (y =? -1) then Some "-/UH"
      else if (x =? 0) && (y =? 0) then Some "-/H"
      else if (x =? 0) && (y =? 1) then Some "-/DH"
      else if (x =? 1) && (y =? -1) then Some "-/URH"
      else if (x =? 1) && (y =? 0) then Some "-/RH"
      else if (x =? 1) && (y =? 1) then Some "-/DRH"
      else None
    else if h =? 0 then
      if (x =? -1) && (y =? -1) then Some "-/UL"
      else if (x =? -1) && (y =? 0) then Some "-/L"
      else if (x =? -1) && (y =? 1) then Some "-/DL"
      else if (x =? 0) && (y =? -1) then Some "-/U"
      else if (x =? 0) && (y =? 0) then Some "-/"
      else if (x =? 0) && (y =? 1) then Some "-/D"
      else if (x =? 1) && (y =? -1) then Some "-/UR"
      else if (x =? 1) && (y =? 0) then Some "-/R"
      else if (x =? 1) && (y =? 1) then Some "-/DR"
      else None
    else None.

(** [encodeActList(code, playerNum)]: one token per recorded input. *)
Definition encodeActList (code : list PikaUserInput) (playerNum : Z)
  : list (option string) :=
  map (fun userInput => encodeUserInput userInput playerNum) code.

(** The [for] loop of [concatListAsString], from index [i] to the end of the
    array, with the three loop variables, followed by the statement after
    the loop. *)
Fixpoint concatLoop (arr : list (option string)) (result : string)
  (current : option string) (count : nat) : string :=
  match arr with
  | [] => result ++ plusCount current count
  | a :: rest =>
      if strictEq a current
      then concatLoop rest result current (S count)
      else concatLoop rest (result ++ plusCount current count) a 1%nat
  end.

(** [concatListAsString(arr)]. *)
Definition concatListAsString (arr : list (option string)) : string :=
  match arr with
  | [] => ""
  | first :: rest => concatLoop rest "" first 1%nat
  end.

(** What [round] hands to [logToNotepad] when the ball touches the ground:
    [concatListAsString(encodeActList(ActList, n)).slice(1)], with [n = 2]
    when player 1 is the computer and [n = 1] otherwise. *)
Definition serveCodeShown (ActList : list PikaUserInput)
  (player1IsComputer : bool) : string :=
  let CodeOutput :=
    if player1IsComputer then encodeActList ActList 2
    else encodeActList ActList 1 in
  let MsgOutput := concatListAsString CodeOutput in
  slice 1 MsgOutput.

(** ** keyboard.js *)

(** A [Key]: the [KeyboardEvent.code] it listens to and whether it is down.
    The two handlers only ever write [isDown] (and its mirror [isUp]). *)
Record Key : Type := mkKey {
  value : string;
  isDown : bool
}.

(** [this.keys]: the constructor always builds exactly these five keys, in
    this order (indices 0 to 4). *)
Record KeyArray : Type := mkKeys {
  leftKey : Key;
  rightKey : Key;
  upKey : Key;
  downKey : Key;
  powerHitKey : Key
}.

(** [PikaKeyboard extends PikaUserInput]: the inherited fields are [input]. *)
Record PikaKeyboard : Type := mkKeyboard {
  input : PikaUserInput;
  powerHitKeyIsDownPrevious : bool;
  keys : KeyArray;
  extraKeys : list Key
}.

Definition set_input (v : PikaUserInput) (kb : PikaKeyboard) : PikaKeyboard :=
  {| input := v; powerHitKeyIsDownPrevious := powerHitKeyIsDownPrevious kb;
     keys := keys kb; extraKeys := extraKeys kb |}.

(** The five [...Pressed] locals of [getInput]. *)
Definition leftPressed (kb : PikaKeyboard) : bool :=
  isDown (leftKey (keys kb))
  || existsb (fun key => String.eqb (value key) "KeyD" && isDown key)
       (extraKeys kb).

Definition rightPressed (kb : PikaKeyboard) : bool :=
  isDown (rightKey (keys kb))
  || existsb (fun key => String.eqb (value key) "KeyG" && isDown key)
       (extraKeys kb).

Definition upPressed (kb : PikaKeyboard) : bool :=
  isDown (upKey (keys kb))
  || existsb (fun key => String.eqb (value key) "KeyR" && isDown key)
       (extraKeys kb).

Definition downPressed (kb : PikaKeyboard) : bool :=
  isDown (downKey (keys kb))
  || existsb (fun key =>
                isDown key
                && existsb (String.eqb (value key))
                     ["KeyV"; "KeyF"; "ArrowDown"])
       (extraKeys kb).

Definition powerHitPressed (kb : PikaKeyboard) : bool :=
  isDown (powerHitKey (keys kb))
  || existsb (fun key => String.eqb (value key) "KeyZ" && isDown key)
       (extraKeys kb).

(** [getInput()]: resolves the keys into the three input fields and
    remembers whether the power-hit key was down. *)
Definition getInput (kb : PikaKeyboard) : PikaKeyboard :=
  let isDown := powerHitPressed kb in
  {| input :=
       {| xDirection := if leftPressed kb then -1
                        else if rightPressed kb then 1 else 0;
          yDirection := if upPressed kb then -1
                        else if downPressed kb then 1 else 0;
          powerHit := if negb (powerHitKeyIsDownPrevious kb) && isDown
                      then 1 else 0 |};
     powerHitKeyIsDownPrevious := isDown;
     keys := keys kb;
     extraKeys := extraKeys kb |}.

(** The key handlers run between two game loops; all they change is the
    [isDown] of the keys.  [pressKeys] installs the keys as they stand when
    the next [getInput] reads them. *)
Definition pressKeys (ks : KeyArray * list Key) (kb : PikaKeyboard)
  : PikaKeyboard :=
  {| input := input kb;
     powerHitKeyIsDownPrevious := powerHitKeyIsDownPrevious kb;
     keys := fst ks; extraKeys := snd ks |}.

(** A keyboard as the constructor leaves it: no key down, and the inherited
    input fields at their initial 0. *)
Definition newKey (code : string) : Key := {| value := code; isDown := false |}.

Definition newPikaKeyboard (left right up down hit : string)
  (extra : list string) : PikaKeyboard :=
  {| input := mkInput 0 0 0;
     powerHitKeyIsDownPrevious := false;
     keys := mkKeys (newKey left) (newKey right) (newKey up) (newKey down)
               (newKey hit);
     extraKeys := map newKey extra |}.

(** [getInput] called once per tick on a sequence of key states; the result
    lists the input fields read after each call. *)
Fixpoint getInputs (kb : PikaKeyboard) (ticks : list (KeyArray * list Key))
  : list PikaUserInput :=
  match ticks with
  | [] => []
  | ks :: rest =>
      let kb' := getInput (pressKeys ks kb) in
      input kb' :: getInputs kb' rest
  end.

(** ** The controller module: the game states *)

(** [this.state] holds one of the eight state methods. *)
Inductive GameState : Type :=
| Intro
| Menu
| AfterMenuSelection
| BeforeStartOfNewGame
| StartOfNewGame
| Round
| AfterEndOfRound
| BeforeStartOfNextRound.

(** The fields of [physics.player1] / [physics.player2] the controller reads
    or writes. *)
Record Player : Type := mkPlayer {
  isComputer : bool;
  isWinner : bool;
  playerGameEnded : bool
}.

Definition set_isComputer (v : bool) (p : Player) : Player :=
  {| isComputer := v; isWinner := isWinner p;
     playerGameEnded := playerGameEnded p |}.

Definition set_isWinner (v : bool) (p : Player) : Player :=
  {| isComputer := isComputer p; isWinner := v;
     playerGameEnded := playerGameEnded p |}.

Definition set_playerGameEnded (v : bool) (p : Player) : Player :=
  {| isComputer := isComputer p; isWinner := isWinner p;
     playerGameEnded := v |}.

(** Ghost observations, appended to [history] at the statement they name:
    entering [round()], [ActList.push(x)], the call of [logToNotepad] with
    the log that was encoded and the text shown, and [ActList.length = 0]. *)
Inductive Obs : Type :=
| ObsRoundTick
| ObsPush (x : PikaUserInput)
| ObsFlush (log : list PikaUserInput) (shown : string)
| ObsClear.

(** The controller object, together with the module-level [ActList], the
    text of the [code-viewer-output] element and the ghost [history]. *)
Record Game : Type := mkGame {
  state : GameState;
  frameCounter : Z;
  noInputFrameCounter : Z;
  selectedWithWho : Z;
  scores : Z * Z;
  winningScore : Z;
  gameEnded : bool;
  roundEnded : bool;
  isPlayer2Serve : bool;
  slowMotionFramesLeft : Z;
  slowMotionNumOfSkippedFrames : Z;
  paused : bool;
  isPracticeMode : bool;
  player1 : Player;
  player2 : Player;
  keyboard0 : PikaKeyboard;
  keyboard1 : PikaKeyboard;
  ActList : list PikaUserInput;
  codeViewerOutput : string;
  history : list Obs
}.

Definition set_state (v : GameState) (g : Game) : Game :=
  {| state := v; frameCounter := frameCounter g; noInputFrameCounter :=
     noInputFrameCounter g; selectedWithWho := selectedWithWho g; scores :=
     scores g; winningScore := winningScore g; gameEnded := gameEnded g;
     roundEnded := roundEnded g; isPlayer2Serve := isPlayer2Serve g;
     slowMotionFramesLeft := slowMotionFramesLeft g;
     slowMotionNumOfSkippedFrames := slowMotionNumOfSkippedFrames g; paused :=
     paused g; isPracticeMode := isPracticeMode g; player1 := player1 g;
     player2 := player2 g; keyboard0 := keyboard0 g; keyboard1 := keyboard1 g;
     ActList := ActList g; codeViewerOutput := codeViewerOutput g; history :=
     history g |}.

Definition set_frameCounter (v : Z) (g : Game) : Game :=
  {| state := state g; frameCounter := v; noInputFrameCounter :=
     noInputFrameCounter g; selectedWithWho := selectedWithWho g; scores :=
     scores g; winningScore := winningScore g; gameEnded := gameEnded g;
     roundEnded := roundEnded g; isPlayer2Serve := isPlayer2Serve g;
     slowMotionFramesLeft := slowMotionFramesLeft g;
     slowMotionNumOfSkippedFrames := slowMotionNumOfSkippedFrames g; paused :=
     paused g; isPracticeMode := isPracticeMode g; player1 := player1 g;
     player2 := player2 g; keyboard0 := keyboard0 g; keyboard1 := keyboard1 g;
     ActList := ActList g; codeViewerOutput := codeViewerOutput g; history :=
     history g |}.

Definition set_noInputFrameCounter (v : Z) (g : Game) : Game :=
  {| state := state g; frameCounter := frameCounter g; noInputFrameCounter
     := v; selectedWithWho := selectedWithWho g; scores := scores g;
     winningScore := winningScore g; gameEnded := gameEnded g; roundEnded :=
     roundEnded g; isPlayer2Serve := isPlayer2Serve g; slowMotionFramesLeft :=
     slowMotionFramesLeft g; slowMotionNumOfSkippedFrames :=
     slowMotionNumOfSkippedFrames g; paused := paused g; isPracticeMode :=
     isPracticeMode g; player1 := player1 g; player2 := player2 g; keyboard0 :=
     keyboard0 g; keyboard1 := keyboard1 g; ActList := ActList g;
     codeViewerOutput := codeViewerOutput g; history := history g |}.

Definition set_selectedWithWho (v : Z) (g : Game) : Game :=
  {| state := state g; frameCounter := frameCounter g; noInputFrameCounter
     := noInputFrameCounter g; selectedWithWho := v; scores := scores g;
     winningScore := winningScore g; gameEnded := gameEnded g; roundEnded :=
     roundEnded g; isPlayer2Serve := isPlayer2Serve g; slowMotionFramesLeft :=
     slowMotionFramesLeft g; slowMotionNumOfSkippedFrames :=
     slowMotionNumOfSkippedFrames g; paused := paused g; isPracticeMode :=
     isPracticeMode g; player1 := player1 g; player2 := player2 g; keyboard0 :=
     keyboard0 g; keyboard1 := keyboard1 g; ActList := ActList g;
     codeViewerOutput := codeViewerOutput g; history := history g |}.

Definition set_scores (v : Z * Z) (g : Game) : Game :=
  {| state := state g; frameCounter := frameCounter g; noInputFrameCounter
     := noInputFrameCounter g; selectedWithWho := selectedWithWho g; scores :=
     v; winningScore := winningScore g; gameEnded := gameEnded g; roundEnded :=
     roundEnded g; isPlayer2Serve := isPlayer2Serve g; slowMotionFramesLeft :=
     slowMotionFramesLeft g; slowMotionNumOfSkippedFrames :=
     slowMotionNumOfSkippedFrames g; paused := paused g; isPracticeMode :=
     isPracticeMode g; player1 := player1 g; player2 := player2 g; keyboard0 :=
     keyboard0 g; keyboard1 := keyboard1 g; ActList := ActList g;
     codeViewerOutput := codeViewerOutput g; history := history g |}.

Definition set_winningScore (v : Z) (g : Game) : Game :=
  {| state := state g; frameCounter := frameCounter g; noInputFrameCounter
     := noInputFrameCounter g; selectedWithWho := selectedWithWho g; scores :=
     scores g; winningScore := v; gameEnded := gameEnded g; roundEnded :=
     roundEnded g; isPlayer2Serve := isPlayer2Serve g; slowMotionFramesLeft :=
     slowMotionFramesLeft g; slowMotionNumOfSkippedFrames :=
     slowMotionNumOfSkippedFrames g; paused := paused g; isPracticeMode :=
     isPracticeMode g; player1 := player1 g; player2 := player2 g; keyboard0 :=
     keyboard0 g; keyboard1 := keyboard1 g; ActList := ActList g;
     codeViewerOutput := codeViewerOutput g; history := history g |}.

Definition set_gameEnded (v : bool) (g : Game) : Game :=
  {| state := state g; frameCounter := frameCounter g; noInputFrameCounter
     := noInputFrameCounter g; selectedWithWho := selectedWithWho g; scores :=
     scores g; winningScore := winningScore g; gameEnded := v; roundEnded :=
     roundEnded g; isPlayer2Serve := isPlayer2Serve g; slowMotionFramesLeft :=
     slowMotionFramesLeft g; slowMotionNumOfSkippedFrames :=
     slowMotionNumOfSkippedFrames g; paused := paused g; isPracticeMode :=
     isPracticeMode g; player1 := player1 g; player2 := player2 g; keyboard0 :=
     keyboard0 g; keyboard1 := keyboard1 g; ActList := ActList g;
     codeViewerOutput := codeViewerOutput g; history := history g |}.

Definition set_roundEnded (v : bool) (g : Game) : Game :=
  {| state := state g; frameCounter := frameCounter g; noInputFrameCounter
     := noInputFrameCounter g; selectedWithWho := selectedWithWho g; scores :=
     scores g; winningScore := winningScore g; gameEnded := gameEnded g;
     roundEnded := v; isPlayer2Serve := isPlayer2Serve g; slowMotionFramesLeft
     := slowMotionFramesLeft g; slowMotionNumOfSkippedFrames :=
     slowMotionNumOfSkippedFrames g; paused := paused g; isPracticeMode :=
     isPracticeMode g; player1 := player1 g; player2 := player2 g; keyboard0 :=
     keyboard0 g; keyboard1 := keyboard1 g; ActList := ActList g;
     codeViewerOutput := codeViewerOutput g; history := history g |}.

Definition set_isPlayer2Serve (v : bool) (g : Game) : Game :=
  {| state := state g; frameCounter := frameCounter g; noInputFrameCounter
     := noInputFrameCounter g; selectedWithWho := selectedWithWho g; scores :=
     scores g; winningScore := winningScore g; gameEnded := gameEnded g;
     roundEnded := roundEnded g; isPlayer2Serve := v; slowMotionFramesLeft :=
     slowMotionFramesLeft g; slowMotionNumOfSkippedFrames :=
     slowMotionNumOfSkippedFrames g; paused := paused g; isPracticeMode :=
     isPracticeMode g; player1 := player1 g; player2 := player2 g; keyboard0 :=
     keyboard0 g; keyboard1 := keyboard1 g; ActList := ActList g;
     codeViewerOutput := codeViewerOutput g; history := history g |}.

Definition set_slowMotionFramesLeft (v : Z) (g : Game) : Game :=
  {| state := state g; frameCounter := frameCounter g; noInputFrameCounter
     := noInputFrameCounter g; selectedWithWho := selectedWithWho g; scores :=
     scores g; winningScore := winningScore g; gameEnded := gameEnded g;
     roundEnded := roundEnded g; isPlayer2Serve := isPlayer2Serve g;
     slowMotionFramesLeft := v; slowMotionNumOfSkippedFrames :=
     slowMotionNumOfSkippedFrames g; paused := paused g; isPracticeMode :=
     isPracticeMode g; player1 := player1 g; player2 := player2 g; keyboard0 :=
     keyboard0 g; keyboard1 := keyboard1 g; ActList := ActList g;
     codeViewerOutput := codeViewerOutput g; history := history g |}.

Definition set_slowMotionNumOfSkippedFrames (v : Z) (g : Game) : Game :=
  {| state := state g; frameCounter := frameCounter g; noInputFrameCounter
     := noInputFrameCounter g; selectedWithWho := selectedWithWho g; scores :=
     scores g; winningScore := winningScore g; gameEnded := gameEnded g;
     roundEnded := roundEnded g; isPlayer2Serve := isPlayer2Serve g;
     slowMotionFramesLeft := slowMotionFramesLeft g;
     slowMotionNumOfSkippedFrames := v; paused := paused g; isPracticeMode :=
     isPracticeMode g; player1 := player1 g; player2 := player2 g; keyboard0 :=
     keyboard0 g; keyboard1 := keyboard1 g; ActList := ActList g;
     codeViewerOutput := codeViewerOutput g; history := history g |}.

Definition set_paused (v : bool) (g : Game) : Game :=
  {| state := state g; frameCounter := frameCounter g; noInputFrameCounter
     := noInputFrameCounter g; selectedWithWho := selectedWithWho g; scores :=
     scores g; winningScore := winningScore g; gameEnded := gameEnded g;
     roundEnded := roundEnded g; isPlayer2Serve := isPlayer2Serve g;
     slowMotionFramesLeft := slowMotionFramesLeft g;
     slowMotionNumOfSkippedFrames := slowMotionNumOfSkippedFrames g; paused :=
     v; isPracticeMode := isPracticeMode g; player1 := player1 g; player2 :=
     player2 g; keyboard0 := keyboard0 g; keyboard1 := keyboard1 g; ActList :=
     ActList g; codeViewerOutput := codeViewerOutput g; history := history g |}.

Definition set_isPracticeMode (v : bool) (g : Game) : Game :=
  {| state := state g; frameCounter := frameCounter g; noInputFrameCounter
     := noInputFrameCounter g; selectedWithWho := selectedWithWho g; scores :=
     scores g; winningScore := winningScore g; gameEnded := gameEnded g;
     roundEnded := roundEnded g; isPlayer2Serve := isPlayer2Serve g;
     slowMotionFramesLeft := slowMotionFramesLeft g;
     slowMotionNumOfSkippedFrames := slowMotionNumOfSkippedFrames g; paused :=
     paused g; isPracticeMode := v; player1 := player1 g; player2 := player2 g;
     keyboard0 := keyboard0 g; keyboard1 := keyboard1 g; ActList := ActList g;
     codeViewerOutput := codeViewerOutput g; history := history g |}.

Definition set_player1 (v : Player) (g : Game) : Game :=
  {| state := state g; frameCounter := frameCounter g; noInputFrameCounter
     := noInputFrameCounter g; selectedWithWho := selectedWithWho g; scores :=
     scores g; winningScore := winningScore g; gameEnded := gameEnded g;
     roundEnded := roundEnded g; isPlayer2Serve := isPlayer2Serve g;
     slowMotionFramesLeft := slowMotionFramesLeft g;
     slowMotionNumOfSkippedFrames := slowMotionNumOfSkippedFrames g; paused :=
     paused g; isPracticeMode := isPracticeMode g; player1 := v; player2 :=
     player2 g; keyboard0 := keyboard0 g; keyboard1 := keyboard1 g; ActList :=
     ActList g; codeViewerOutput := codeViewerOutput g; history := history g |}.

Definition set_player2 (v : Player) (g : Game) : Game :=
  {| state := state g; frameCounter := frameCounter g; noInputFrameCounter
     := noInputFrameCounter g; selectedWithWho := selectedWithWho g; scores :=
     scores g; winningScore := winningScore g; gameEnded := gameEnded g;
     roundEnded := roundEnded g; isPlayer2Serve := isPlayer2Serve g;
     slowMotionFramesLeft := slowMotionFramesLeft g;
     slowMotionNumOfSkippedFrames := slowMotionNumOfSkippedFrames g; paused :=
     paused g; isPracticeMode := isPracticeMode g; player1 := player1 g;
     player2 := v; keyboard0 := keyboard0 g; keyboard1 := keyboard1 g; ActList
     := ActList g; codeViewerOutput := codeViewerOutput g; history := history g
     |}.

Definition set_keyboard0 (v : PikaKeyboard) (g : Game) : Game :=
  {| state := state g; frameCounter := frameCounter g; noInputFrameCounter
     := noInputFrameCounter g; selectedWithWho := selectedWithWho g; scores :=
     scores g; winningScore := winningScore g; gameEnded := gameEnded g;
     roundEnded := roundEnded g; isPlayer2Serve := isPlayer2Serve g;
     slowMotionFramesLeft := slowMotionFramesLeft g;
     slowMotionNumOfSkippedFrames := slowMotionNumOfSkippedFrames g; paused :=
     paused g; isPracticeMode := isPracticeMode g; player1 := player1 g;
     player2 := player2 g; keyboard0 := v; keyboard1 := keyboard1 g; ActList :=
     ActList g; codeViewerOutput := codeViewerOutput g; history := history g |}.

Definition set_keyboard1 (v : PikaKeyboard) (g : Game) : Game :=
  {| state := state g; frameCounter := frameCounter g; noInputFrameCounter
     := noInputFrameCounter g; selectedWithWho := selectedWithWho g; scores :=
     scores g; winningScore := winningScore g; gameEnded := gameEnded g;
     roundEnded := roundEnded g; isPlayer2Serve := isPlayer2Serve g;
     slowMotionFramesLeft := slowMotionFramesLeft g;
     slowMotionNumOfSkippedFrames := slowMotionNumOfSkippedFrames g; paused :=
     paused g; isPracticeMode := isPracticeMode g; player1 := player1 g;
     player2 := player2 g; keyboard0 := keyboard0 g; keyboard1 := v; ActList :=
     ActList g; codeViewerOutput := codeViewerOutput g; history := history g |}.

Definition set_ActList (v : list PikaUserInput) (g : Game) : Game :=
  {| state := state g; frameCounter := frameCounter g; noInputFrameCounter
     := noInputFrameCounter g; selectedWithWho := selectedWithWho g; scores :=
     scores g; winningScore := winningScore g; gameEnded := gameEnded g;
     roundEnded := roundEnded g; isPlayer2Serve := isPlayer2Serve g;
     slowMotionFramesLeft := slowMotionFramesLeft g;
     slowMotionNumOfSkippedFrames := slowMotionNumOfSkippedFrames g; paused :=
     paused g; isPracticeMode := isPracticeMode g; player1 := player1 g;
     player2 := player2 g; keyboard0 := keyboard0 g; keyboard1 := keyboard1 g;
     ActList := v; codeViewerOutput := codeViewerOutput g; history := history g
     |}.

Definition set_codeViewerOutput (v : string) (g : Game) : Game :=
  {| state := state g; frameCounter := frameCounter g; noInputFrameCounter
     := noInputFrameCounter g; selectedWithWho := selectedWithWho g; scores :=
     scores g; winningScore := winningScore g; gameEnded := gameEnded g;
     roundEnded := roundEnded g; isPlayer2Serve := isPlayer2Serve g;
     slowMotionFramesLeft := slowMotionFramesLeft g;
     slowMotionNumOfSkippedFrames := slowMotionNumOfSkippedFrames g; paused :=
     paused g; isPracticeMode := isPracticeMode g; player1 := player1 g;
     player2 := player2 g; keyboard0 := keyboard0 g; keyboard1 := keyboard1 g;
     ActList := ActList g; codeViewerOutput := v; history := history g |}.

Definition set_history (v : list Obs) (g : Game) : Game :=
  {| state := state g; frameCounter := frameCounter g; noInputFrameCounter
     := noInputFrameCounter g; selectedWithWho := selectedWithWho g; scores :=
     scores g; winningScore := winningScore g; gameEnded := gameEnded g;
     roundEnded := roundEnded g; isPlayer2Serve := isPlayer2Serve g;
     slowMotionFramesLeft := slowMotionFramesLeft g;
     slowMotionNumOfSkippedFrames := slowMotionNumOfSkippedFrames g; paused :=
     paused g; isPracticeMode := isPracticeMode g; player1 := player1 g;
     player2 := player2 g; keyboard0 := keyboard0 g; keyboard1 := keyboard1 g;
     ActList := ActList g; codeViewerOutput := codeViewerOutput g; history := v
     |}.

(** Ghost: append one observation. *)
Definition note (o : Obs) (g : Game) : Game :=
  set_history (history g ++ [o]) g.

(** The constructor's constants. *)
Definition normalFPS : Z := 25.
Definition slowMotionFPS : Z := 5.
Definition SLOW_MOTION_FRAMES_NUM : Z := 6.
Definition frameTotal_intro : Z := 165.
Definition frameTotal_afterMenuSelection : Z := 15.
Definition frameTotal_beforeStartOfNewGame : Z := 15.
Definition frameTotal_startOfNewGame : Z := 71.
Definition frameTotal_afterEndOfRound : Z := 5.
Definition frameTotal_beforeStartOfNextRound : Z := 30.
Definition frameTotal_gameEnd : Z := 211.

(** [Math.round(a / b)] for positive integers: the quotient rounded to the
    nearest integer, halves up. *)
Definition mathRoundDiv (a b : Z) : Z := (2 * a + b) / (2 * b).

(** The controller as its constructor leaves it ([new PikaPhysics(true,
    true)] makes both players computers; the state is [intro]).  The
    winning score is a public field the constructor sets to 15; it is an
    argument here so that other configured values are covered as well. *)
Definition newGame (winning : Z) : Game :=
  {| state := Intro; frameCounter := 0; noInputFrameCounter := 0;
     selectedWithWho := 0; scores := (0, 0); winningScore := winning;
     gameEnded := false; roundEnded := false; isPlayer2Serve := false;
     slowMotionFramesLeft := 0; slowMotionNumOfSkippedFrames := 0;
     paused := false; isPracticeMode := false;
     player1 := mkPlayer true false false;
     player2 := mkPlayer true false false;
     keyboard0 := newPikaKeyboard "KeyD" "KeyG" "KeyR" "KeyV" "KeyZ" [];
     keyboard1 := newPikaKeyboard "ArrowLeft" "ArrowRight" "ArrowUp"
                    "ArrowDown" "Enter" [];
     ActList := []; codeViewerOutput := ""; history := [] |}.

Definition pikachuVolleyball : Game := newGame 15.

(** [keyboardArray[0].powerHit === 1 || keyboardArray[1].powerHit === 1]. *)
Definition anyPowerHit (g : Game) : bool :=
  (powerHit (input (keyboard0 g)) =? 1)
  || (powerHit (input (keyboard1 g)) =? 1).

(** [intro()] (view and audio calls left out, here and below). *)
Definition intro (g : Game) : Game :=
  let g := set_frameCounter (frameCounter g + 1) g in
  let g := if anyPowerHit g
           then set_state Menu (set_frameCounter 0 g) else g in
  if frameCounter g >=? frameTotal_intro
  then set_state Menu (set_frameCounter 0 g)
  else g.

(** [menu()]. *)
Definition menu (g : Game) : Game :=
  let g := if frameCounter g =? 0 then set_selectedWithWho 0 g else g in
  let g := set_frameCounter (frameCounter g + 1) g in
  if (frameCounter g <? 71) && anyPowerHit g then set_frameCounter 71 g
  else if frameCounter g <=? 71 then g
  else
    let y0 := yDirection (input (keyboard0 g)) in
    let y1 := yDirection (input (keyboard1 g)) in
    let g :=
      if ((y0 =? -1) || (y1 =? -1)) && (selectedWithWho g =? 1) then
        set_selectedWithWho 0 (set_noInputFrameCounter 0 g)
      else if ((y0 =? 1) || (y1 =? 1)) && (selectedWithWho g =? 0) then
        set_selectedWithWho 1 (set_noInputFrameCounter 0 g)
      else set_noInputFrameCounter (noInputFrameCounter g + 1) g in
    if anyPowerHit g then
      let g :=
        if selectedWithWho g =? 1 then
          set_player2 (set_isComputer false (player2 g))
            (set_player1 (set_isComputer false (player1 g)) g)
        else if powerHit (input (keyboard0 g)) =? 1 then
          set_player2 (set_isComputer true (player2 g))
            (set_player1 (set_isComputer false (player1 g)) g)
        else if powerHit (input (keyboard1 g)) =? 1 then
          set_player2 (set_isComputer false (player2 g))
            (set_player1 (set_isComputer true (player1 g)) g)
        else g in
      set_state AfterMenuSelection
        (set_noInputFrameCounter 0 (set_frameCounter 0 g))
    else g.

(** [afterMenuSelection()]. *)
Definition afterMenuSelection (g : Game) : Game :=
  let g := set_frameCounter (frameCounter g + 1) g in
  if frameCounter g >=? frameTotal_afterMenuSelection
  then set_state BeforeStartOfNewGame (set_frameCounter 0 g)
  else g.

(** [beforeStartOfNewGame()]. *)
Definition beforeStartOfNewGame (g : Game) : Game :=
  let g := set_frameCounter (frameCounter g + 1) g in
  if frameCounter g >=? frameTotal_beforeStartOfNewGame
  then set_state StartOfNewGame (set_frameCounter 0 g)
  else g.

(** [startOfNewGame()].  The [initializeForNewRound] calls act on positions
    and velocities inside the physics objects, which are not part of
    [Game]. *)
Definition startOfNewGame (g : Game) : Game :=
  let g :=
    if frameCounter g =? 0 then
      let g := set_gameEnded false g in
      let g := set_roundEnded false g in
      let g := set_isPlayer2Serve false g in
      let g := set_player1 (set_playerGameEnded false (player1 g)) g in
      let g := set_player1 (set_isWinner false (player1 g)) g in
      let g := set_player2 (set_playerGameEnded false (player2 g)) g in
      let g := set_player2 (set_isWinner false (player2 g)) g in
      let g := set_scores (0, snd (scores g)) g in
      set_scores (fst (scores g), 0) g
    else g in
  let g := set_frameCounter (frameCounter g + 1) g in
  if frameCounter g >=? frameTotal_startOfNewGame
  then set_state Round (set_frameCounter 0 g)
  else g.

(** The two merging blocks at the top of [round()]: when player 1 is the
    computer, keyboard 1 takes over what keyboard 0 has pressed; when player
    2 is the computer, keyboard 0 takes over what keyboard 1 has pressed.
    The blocks run one after the other, the second on the result of the
    first. *)
Definition mergeInto (k0 k1 : PikaKeyboard) : PikaUserInput :=
  {| xDirection := js_or (xDirection (input k0)) (xDirection (input k1));
     yDirection := js_or (yDirection (input k0)) (yDirection (input k1));
     powerHit := js_or (powerHit (input k0)) (powerHit (input k1)) |}.

Definition mergeKeyboards (g : Game) : Game :=
  let g :=
    if isComputer (player1 g)
    then set_keyboard1
           (set_input (mergeInto (keyboard0 g) (keyboard1 g)) (keyboard1 g)) g
    else g in
  if isComputer (player2 g)
  then set_keyboard0
         (set_input (mergeInto (keyboard0 g) (keyboard1 g)) (keyboard0 g)) g
  else g.

(** [ActList.push(x)]. *)
Definition push (x : PikaUserInput) (g : Game) : Game :=
  note (ObsPush x) (set_ActList (ActList g ++ [x]) g).

(** [ActList.length = 0]. *)
Definition clearActList (g : Game) : Game :=
  note ObsClear (set_ActList [] g).

(** The copies [player1Input] / [player2Input] and the push of the one that
    belongs to the side that is not the computer. *)
Definition recordInput (g : Game) : Game :=
  let player1Input := input (keyboard0 g) in
  let player2Input := input (keyboard1 g) in
  if isComputer (player1 g) then push player2Input g
  else push player1Input g.

(** The [if (isBallTouchingGround)] block: encode, show, clear.  The
    element [code-viewer-output] is taken to exist ([logToNotepad] does
    nothing when it is missing); what is handed to [logToNotepad] is
    observed as [ObsFlush] in either case. *)
Definition flush (g : Game) : Game :=
  let shown := serveCodeShown (ActList g) (isComputer (player1 g)) in
  let g := note (ObsFlush (ActList g) shown) (set_codeViewerOutput shown g) in
  clearActList g.

(** The scoring block of [round()]; [GROUND_HALF_WIDTH] is imported from
    physics.js and [punchEffectX] is [physics.ball.punchEffectX] after the
    engine step. *)
Definition scoringBlock (GROUND_HALF_WIDTH punchEffectX : Z) (g : Game)
  : Game :=
  let g :=
    if punchEffectX <? GROUND_HALF_WIDTH then
      let g := set_isPlayer2Serve true g in
      if snd (scores g) >=? winningScore g then
        let g := set_gameEnded true g in
        let g := set_player1 (set_isWinner false (player1 g)) g in
        let g := set_player2 (set_isWinner true (player2 g)) g in
        let g := set_player1 (set_playerGameEnded true (player1 g)) g in
        set_player2 (set_playerGameEnded true (player2 g)) g
      else g
    else
      let g := set_isPlayer2Serve false g in
      if fst (scores g) >=? winningScore g then
        let g := set_gameEnded true g in
        let g := set_player1 (set_isWinner true (player1 g)) g in
        let g := set_player2 (set_isWinner false (player2 g)) g in
        let g := set_player1 (set_playerGameEnded true (player1 g)) g in
        set_player2 (set_playerGameEnded true (player2 g)) g
      else g in
  let g :=
    if negb (roundEnded g) && negb (gameEnded g)
    then set_slowMotionFramesLeft SLOW_MOTION_FRAMES_NUM g
    else g in
  set_roundEnded true g.

(** The guard of the scoring block. *)
Definition isScoringTouch (isBallTouchingGround : bool) (g : Game) : bool :=
  isBallTouchingGround && negb (isPracticeMode g) && negb (roundEnded g)
  && negb (gameEnded g).

(** The body of [if (this.gameEnded === true) { ... return; }]. *)
Definition gameEndBlock (pressedPowerHit : bool) (g : Game) : Game :=
  let g := set_frameCounter (frameCounter g + 1) g in
  if (frameCounter g >=? frameTotal_gameEnd)
     || ((frameCounter g >=? 70) && pressedPowerHit)
  then set_state Intro (set_frameCounter 0 g)
  else g.

(** [round()] from the sound effects and the drawing onwards: the end of
    the game, the scoring block and the end of the round. *)
Definition afterEngine (GROUND_HALF_WIDTH : Z) (isBallTouchingGround : bool)
  (punchEffectX : Z) (pressedPowerHit : bool) (g : Game) : Game :=
  if gameEnded g then gameEndBlock pressedPowerHit g
  else
    let g :=
      if isScoringTouch isBallTouchingGround g
      then scoringBlock GROUND_HALF_WIDTH punchEffectX g
      else g in
    if roundEnded g && negb (gameEnded g) then
      if slowMotionFramesLeft g =? 0
      then set_state AfterEndOfRound g
      else g
    else g.

(** [round()] up to and including the [if (isBallTouchingGround)] block,
    once the first test has not returned: merge, record, run the engine,
    flush. *)
Definition recordAndFlush (isBallTouchingGround : bool) (g : Game) : Game :=
  let g := mergeKeyboards g in
  let g := recordInput g in
  if isBallTouchingGround then flush g else g.

(** [round()].  [physics.runEngineForNextFrame] lives in physics.js; the
    controller only uses its return value [isBallTouchingGround] and, after
    it, [physics.ball.punchEffectX].  Both are supplied by the caller.  The
    engine may also rewrite the input fields of a computer player's
    keyboard; the next [getInput] overwrites them before anything reads
    them, so the model leaves them as they are. *)
Definition round (GROUND_HALF_WIDTH : Z) (isBallTouchingGround : bool)
  (punchEffectX : Z) (g : Game) : Game :=
  let g := note ObsRoundTick g in
  let pressedPowerHit := anyPowerHit g in
  if isComputer (player1 g) && isComputer (player2 g) && pressedPowerHit
  then set_state Intro (set_frameCounter 0 g)
  else
    let g := recordAndFlush isBallTouchingGround g in
    afterEngine GROUND_HALF_WIDTH isBallTouchingGround punchEffectX
      pressedPowerHit g.

(** [afterEndOfRound()]. *)
Definition afterEndOfRound (g : Game) : Game :=
  let g := set_frameCounter (frameCounter g + 1) g in
  if frameCounter g >=? frameTotal_afterEndOfRound
  then set_state BeforeStartOfNextRound (set_frameCounter 0 g)
  else g.

(** [beforeStartOfNextRound()]. *)
Definition beforeStartOfNextRound (g : Game) : Game :=
  let g := set_frameCounter (frameCounter g + 1) g in
  if frameCounter g >=? frameTotal_beforeStartOfNextRound then
    let g := set_frameCounter 0 g in
    let g := set_roundEnded false g in
    let g := clearActList g in
    set_state Round g
  else g.

(** [restart()] (the room id and the random generator are not part of
    [Game]). *)
Definition restart (g : Game) : Game :=
  let g := set_frameCounter 0 g in
  let g := set_noInputFrameCounter 0 g in
  let g := set_slowMotionFramesLeft 0 g in
  let g := set_slowMotionNumOfSkippedFrames 0 g in
  let g := clearActList g in
  set_state Intro g.

(** What one call of [gameLoop()] finds outside the controller: the keys of
    the two keyboards as the handlers left them, and what the physics engine
    answers should this loop run it. *)
Record Tick : Type := mkTick {
  keys0 : KeyArray * list Key;
  keys1 : KeyArray * list Key;
  isBallTouchingGround : bool;
  punchEffectX : Z
}.

(** [this.state()]. *)
Definition runState (GROUND_HALF_WIDTH : Z) (t : Tick) (g : Game) : Game :=
  match state g with
  | Intro => intro g
  | Menu => menu g
  | AfterMenuSelection => afterMenuSelection g
  | BeforeStartOfNewGame => beforeStartOfNewGame g
  | StartOfNewGame => startOfNewGame g
  | Round => round GROUND_HALF_WIDTH (isBallTouchingGround t)
               (punchEffectX t) g
  | AfterEndOfRound => afterEndOfRound g
  | BeforeStartOfNextRound => beforeStartOfNextRound g
  end.

(** [gameLoop()]. *)
Definition gameLoop (GROUND_HALF_WIDTH : Z) (t : Tick) (g : Game) : Game :=
  if paused g then g
  else
    let g := set_keyboard0 (getInput (pressKeys (keys0 t) (keyboard0 g))) g in
    let g := set_keyboard1 (getInput (pressKeys (keys1 t) (keyboard1 g))) g in
    if slowMotionFramesLeft g >? 0 then
      let g := set_slowMotionNumOfSkippedFrames
                 (slowMotionNumOfSkippedFrames g + 1) g in
      if negb (Z.rem (slowMotionNumOfSkippedFrames g)
                 (mathRoundDiv normalFPS slowMotionFPS) =? 0)
      then g
      else
        let g := set_slowMotionFramesLeft (slowMotionFramesLeft g - 1) g in
        let g := set_slowMotionNumOfSkippedFrames 0 g in
        runState GROUND_HALF_WIDTH t g
    else runState GROUND_HALF_WIDTH t g.

(** What can happen to the controller: the page calls [gameLoop] at every
    frame, and its buttons call [restart], write [paused] and use the
    [isPracticeMode] setter. *)
Inductive Event : Type :=
| EvTick (t : Tick)
| EvRestart
| EvPaused (b : bool)
| EvPracticeMode (b : bool).

Definition step (GROUND_HALF_WIDTH : Z) (g : Game) (e : Event) : Game :=
  match e with
  | EvTick t => gameLoop GROUND_HALF_WIDTH t g
  | EvRestart => restart g
  | EvPaused b => set_paused b g
  | EvPracticeMode b => set_isPracticeMode b g
  end.

(** The controller after a sequence of events, oldest first. *)
Definition run (GROUND_HALF_WIDTH : Z) (g : Game) (es : list Event) : Game :=
  fold_left (step GROUND_HALF_WIDTH) es g.

(** ** Vocabulary of the properties *)

(** The 18 input combinations: directions in {-1,0,1}, power hit in {0,1}. *)
Definition validInputs : list PikaUserInput :=
  flat_map (fun x =>
    flat_map (fun y => map (fun h => mkInput x y h) [0; 1]) [-1; 0; 1])
    [-1; 0; 1].

Definition validInput (u : PikaUserInput) : Prop :=
  (xDirection u = -1 \/ xDirection u = 0 \/ xDirection u = 1)
  /\ (yDirection u = -1 \/ yDirection u = 0 \/ yDirection u = 1)
  /\ (powerHit u = 0 \/ powerHit u = 1).

(** The tokens [encodeUserInput] has for one side. *)
Definition tokens (playerNum : Z) : list string :=
  flat_map (fun u => match encodeUserInput u playerNum with
                     | Some t => [t]
                     | None => []
                     end) validInputs.

Definition isDigit (c : ascii) : bool :=
  ((48 <=? nat_of_ascii c) && (nat_of_ascii c <=? 57))%nat.

Fixpoint allDigits (s : string) : bool :=
  match s with
  | EmptyString => true
  | String c rest => isDigit c && allDigits rest
  end.

(** The characters tokens are made of. *)
Definition isSymbolChar (c : ascii) : bool :=
  existsb (Ascii.eqb c) ["U"; "D"; "L"; "R"; "H"; "-"; "/"]%char.

Fixpoint allChars (p : ascii -> bool) (s : string) : bool :=
  match s with
  | EmptyString => true
  | String c rest => p c && allChars p rest
  end.

(** A run [<symbol><decimalDigits>] of one side, as a pair, and the text of
    a sequence of runs. *)
Definition isRun (playerNum : Z) (r : string * string) : Prop :=
  In (fst r) (tokens playerNum) /\ snd r <> "" /\ allDigits (snd r) = true.

Fixpoint runsText (runs : list (string * string)) : string :=
  match runs with
  | [] => ""
  | r :: rest => fst r ++ snd r ++ runsText rest
  end.

(** No two neighbours of the list are equal. *)
Fixpoint noAdjacentEqual (l : list string) : Prop :=
  match l with
  | a :: rest =>
      match rest with
      | b :: _ => a <> b
      | [] => True
      end /\ noAdjacentEqual rest
  | [] => True
  end.

(** The serve-code text format: a concatenation of runs of one side. *)
Definition isServeCodeText (s : string) : Prop :=
  exists playerNum runs,
    (playerNum = 1 \/ playerNum = 2)
    /\ Forall (isRun playerNum) runs /\ s = runsText runs.

(** States that are only entered through the selection made in [menu]. *)
Definition afterMenu (s : GameState) : bool :=
  match s with
  | Intro | Menu => false
  | _ => true
  end.

(** Number of entries into [round()] observed since [ActList] was last
    cleared (or since the beginning). *)
Definition countTick (n : nat) (o : Obs) : nat :=
  match o with
  | ObsRoundTick => S n
  | ObsClear => O
  | _ => n
  end.

Definition roundTicksSinceClear (h : list Obs) : nat :=
  fold_left countTick h O.

(** What holds of every log that was flushed, given the history [before]
    the flush. *)
Definition flushOk (before : list Obs) (log : list PikaUserInput)
  (shown : string) : Prop :=
  List.length log = roundTicksSinceClear before
  /\ log <> []
  /\ Forall validInput log
  /\ exists b, shown = serveCodeShown log b.

Definition flushesOk (h : list Obs) : Prop :=
  forall h1 h2 log shown,
    h = (h1 ++ ObsFlush log shown :: h2)%list -> flushOk h1 log shown.

(** The invariant of the controller. *)
Record Inv (g : Game) : Prop := mkInv {
  inv_scores : scores g = (0, 0);
  inv_log : Forall validInput (ActList g);
  inv_kb0 : validInput (input (keyboard0 g));
  inv_kb1 : validInput (input (keyboard1 g));
  inv_human : afterMenu (state g) = true ->
              isComputer (player1 g) && isComputer (player2 g) = false;
  inv_winner : gameEnded g = true ->
               isWinner (player1 g) = negb (isWinner (player2 g));
  inv_count : List.length (ActList g) = roundTicksSinceClear (history g);
  inv_flushes : flushesOk (history g)
}.

(** The run of [round()] that returns to the intro at once. *)
Definition leavesRoundAtOnce (g : Game) : bool :=
  isComputer (player1 g) && isComputer (player2 g) && anyPowerHit g.

(** The input the two merging blocks leave on the human side's keyboard,
    from the two keyboards as [getInput] left them. *)
Definition mergedInput (k0 k1 : PikaKeyboard) : PikaUserInput :=
  {| xDirection := if xDirection (input k0) =? 0
                   then xDirection (input k1) else xDirection (input k0);
     yDirection := if yDirection (input k0) =? 0
                   then yDirection (input k1) else yDirection (input k0);
     powerHit := if (powerHit (input k0) =? 1) || (powerHit (input k1) =? 1)
                 then 1 else 0 |}.

(** An opening that reaches the first round with player 1 human and player
    2 the computer: Z is tapped to leave the intro, tapped again to skip the
    menu animation, and tapped a third time to choose. *)
Definition idleKeys0 : KeyArray * list Key :=
  (mkKeys (newKey "KeyD") (newKey "KeyG") (newKey "KeyR") (newKey "KeyV")
     (newKey "KeyZ"), []).

Definition hitKeys0 : KeyArray * list Key :=
  (mkKeys (newKey "KeyD") (newKey "KeyG") (newKey "KeyR") (newKey "KeyV")
     (mkKey "KeyZ" true), []).

Definition leftKeys0 : KeyArray * list Key :=
  (mkKeys (mkKey "KeyD" true) (newKey "KeyG") (newKey "KeyR") (newKey "KeyV")
     (newKey "KeyZ"), []).

Definition idleKeys1 : KeyArray * list Key :=
  (mkKeys (newKey "ArrowLeft") (newKey "ArrowRight") (newKey "ArrowUp")
     (newKey "ArrowDown") (newKey "Enter"), []).

Definition idleTick : Event := EvTick (mkTick idleKeys0 idleKeys1 false 0).
Definition hitTick : Event := EvTick (mkTick hitKeys0 idleKeys1 false 0).
Definition leftTick : Event := EvTick (mkTick leftKeys0 idleKeys1 false 0).

Definition leftTouchTick : Event :=
  EvTick (mkTick leftKeys0 idleKeys1 true 100).

Definition opening : list Event :=
  [hitTick; idleTick; hitTick; idleTick; hitTick]
  ++ repeat idleTick
       (Z.to_nat (frameTotal_afterMenuSelection
                  + frameTotal_beforeStartOfNewGame
                  + frameTotal_startOfNewGame)).

(** The opening followed by three ticks with the left key held, the ball
    touching the ground on the third. *)
Definition threeLefts : list Event :=
  (opening ++ [leftTick; leftTick; leftTouchTick])%list.

(** The first round of a game with the constructor's settings, for a court
    of half width 216. *)
Definition firstRound : Game := run 216 pikachuVolleyball opening.

(** The input [round()] records: player 2's when player 1 is the computer,
    player 1's otherwise, read after the two merging blocks. *)
Definition recordedInput (g : Game) : PikaUserInput :=
  if isComputer (player1 g) then input (keyboard1 (mergeKeyboards g))
  else input (keyboard0 (mergeKeyboards g)).

(** Between [g] and [g'] the controller entered [round()] once and pushed
    exactly one input [x], the one of player 2 when player 1 is the computer
    and of player 1 otherwise, as it stands on the keyboards handed to the
    engine. *)
Definition recordsOne (touch : bool) (g g' : Game) : Prop :=
  exists x rest,
    history g' = (history g ++ ObsRoundTick :: ObsPush x :: rest)%list
    /\ (forall o, In o rest -> o <> ObsRoundTick /\ forall y, o <> ObsPush y)
    /\ x = (if isComputer (player1 g)
            then input (keyboard1 g') else input (keyboard0 g'))
    /\ ActList g' = (if touch then [] else ActList g ++ [x])%list.

(** Whether the power-hit key of a key state is down, as [getInput] reads
    it. *)
Definition powerHitKeyDown (ks : KeyArray * list Key) : bool :=
  powerHitPressed (pressKeys ks (newPikaKeyboard "" "" "" "" "" [])).

(** Whether the power-hit key was down on the tick before tick [i]; before
    the first tick this is what the keyboard remembers. *)
Definition wasDownBefore (kb : PikaKeyboard)
  (ticks : list (KeyArray * list Key)) (i : nat) : bool :=
  match i with
  | O => powerHitKeyIsDownPrevious kb
  | S j => match nth_error ticks j with
           | Some ks => powerHitKeyDown ks
           | None => false
           end
  end.

(** The log of the example scenario: three ticks to the left, then two
    ticks with the power hit alone. *)
Definition scenarioLog : list PikaUserInput :=
  [mkInput (-1) 0 0; mkInput (-1) 0 0; mkInput (-1) 0 0;
   mkInput 0 0 1; mkInput 0 0 1].

(** ** The controller module: sound effects *)

(** [player.sound]: the three pending sounds of a player. *)
Record PlayerSound : Type := mkPlayerSound {
  pipikachu : bool;
  pika : bool;
  chu : bool
}.

(** [ball.sound]: the two pending sounds of the ball. *)
Record BallSound : Type := mkBallSound {
  ballPowerHit : bool;
  ballTouchesGround : bool
}.

(** The five entries of [audio.sounds] that [playSoundEffect] plays. *)
Inductive SoundName : Type :=
| PipikachuSound
| PikaSound
| ChuSound
| PowerHitSound
| BallTouchesGroundSound.

(** The sound flags of the physics objects, and the calls
    [audio.sounds.<name>.play(leftOrCenterOrRight)] made so far, oldest
    first. *)
Record Sounds : Type := mkSounds {
  player1Sound : PlayerSound;
  player2Sound : PlayerSound;
  ballSound : BallSound;
  played : list (SoundName * Z)
}.

(** The body of the [for] loop of [playSoundEffect] for one player, with
    the [leftOrCenterOrRight] of that player. *)
Definition playPlayerSounds (leftOrCenterOrRight : Z)
  (sp : PlayerSound * list (SoundName * Z))
  : PlayerSound * list (SoundName * Z) :=
  let sp :=
    if pipikachu (fst sp)
    then (mkPlayerSound false (pika (fst sp)) (chu (fst sp)),
          (snd sp ++ [(PipikachuSound, leftOrCenterOrRight)])%list)
    else sp in
  let sp :=
    if pika (fst sp)
    then (mkPlayerSound (pipikachu (fst sp)) false (chu (fst sp)),
          (snd sp ++ [(PikaSound, leftOrCenterOrRight)])%list)
    else sp in
  if chu (fst sp)
  then (mkPlayerSound (pipikachu (fst sp)) (pika (fst sp)) false,
        (snd sp ++ [(ChuSound, leftOrCenterOrRight)])%list)
  else sp.

(** The part of [playSoundEffect] after the loop, for the ball. *)
Definition playBallSounds (leftOrCenterOrRight : Z)
  (sp : BallSound * list (SoundName * Z))
  : BallSound * list (SoundName * Z) :=
  let sp :=
    if ballPowerHit (fst sp)
    then (mkBallSound false (ballTouchesGround (fst sp)),
          (snd sp ++ [(PowerHitSound, leftOrCenterOrRight)])%list)
    else sp in
  if ballTouchesGround (fst sp)
  then (mkBallSound (ballPowerHit (fst sp)) false,
        (snd sp ++ [(BallTouchesGroundSound, leftOrCenterOrRight)])%list)
  else sp.

(** [playSoundEffect()], with [this.isStereoSound], [GROUND_HALF_WIDTH] and
    [physics.ball.punchEffectX]. *)
Definition playSoundEffect (isStereoSound : bool)
  (GROUND_HALF_WIDTH punchEffectX : Z) (s : Sounds) : Sounds :=
  let p1 := playPlayerSounds (if isStereoSound then -1 else 0)
              (player1Sound s, played s) in
  let p2 := playPlayerSounds (if isStereoSound then 1 else 0)
              (player2Sound s, snd p1) in
  let leftOrCenterOrRight :=
    if isStereoSound then
      if punchEffectX <? GROUND_HALF_WIDTH then -1
      else if punchEffectX >? GROUND_HALF_WIDTH then 1
      else 0
    else 0 in
  let b := playBallSounds leftOrCenterOrRight (ballSound s, snd p2) in
  {| player1Sound := fst p1; player2Sound := fst p2; ballSound := fst b;
     played := snd b |}.

(** Number of pending sounds. *)
Definition pendingSounds (s : Sounds) : nat :=
  (Nat.b2n (pipikachu (player1Sound s)) + Nat.b2n (pika (player1Sound s))
   + Nat.b2n (chu (player1Sound s))
   + Nat.b2n (pipikachu (player2Sound s)) + Nat.b2n (pika (player2Sound s))
   + Nat.b2n (chu (player2Sound s))
   + Nat.b2n (ballPowerHit (ballSound s))
   + Nat.b2n (ballTouchesGround (ballSound s)))%nat.

(** ** keyboard.js: the key handlers *)

(** A [Key] object with both of its flags, and whether its two listeners
    are attached to the window. *)
Record KeyObject : Type := mkKeyObject {
  keyValue : string;
  keyIsDown : bool;
  keyIsUp : bool;
  listening : bool
}.

(** [new Key(value)]: up, and subscribed by the constructor. *)
Definition newKeyObject (code : string) : KeyObject :=
  {| keyValue := code; keyIsDown := false; keyIsUp := true;
     listening := true |}.

(** [downHandler(event)] and [upHandler(event)], with [event.code]. *)
Definition downHandler (code : string) (k : KeyObject) : KeyObject :=
  if String.eqb code (keyValue k)
  then {| keyValue := keyValue k; keyIsDown := true; keyIsUp := false;
          listening := listening k |}
  else k.

Definition upHandler (code : string) (k : KeyObject) : KeyObject :=
  if String.eqb code (keyValue k)
  then {| keyValue := keyValue k; keyIsDown := false; keyIsUp := true;
          listening := listening k |}
  else k.

(** [subscribe()] and [unsubscribe()]. *)
Definition subscribeKey (k : KeyObject) : KeyObject :=
  {| keyValue := keyValue k; keyIsDown := keyIsDown k; keyIsUp := keyIsUp k;
     listening := true |}.

Definition unsubscribeKey (k : KeyObject) : KeyObject :=
  {| keyValue := keyValue k; keyIsDown := false; keyIsUp := true;
     listening := false |}.

(** What happens to a key: a keydown or keyup event of the window, which
    reaches the handlers only while they are attached, or a call of
    [subscribe] or [unsubscribe]. *)
Inductive KeyAction : Type :=
| Keydown (code : string)
| Keyup (code : string)
| Subscribe
| Unsubscribe.

Definition keyStep (k : KeyObject) (a : KeyAction) : KeyObject :=
  match a with
  | Keydown code => if listening k then downHandler code k else k
  | Keyup code => if listening k then upHandler code k else k
  | Subscribe => subscribeKey k
  | Unsubscribe => unsubscribeKey k
  end.

Definition keyAfter (k : KeyObject) (actions : list KeyAction) : KeyObject :=
  fold_left keyStep actions k.

(** Whether an action is an event with the given code. *)
Definition concerns (code : string) (a : KeyAction) : bool :=
  match a with
  | Keydown c | Keyup c => String.eqb c code
  | _ => false
  end.

(** The extra key codes [getInput] looks for. *)
Definition extraCodes : list string :=
  ["KeyD"; "KeyG"; "KeyR"; "KeyV"; "KeyF"; "ArrowDown"; "KeyZ"].

Definition addExtraKey (k : Key) (kb : PikaKeyboard) : PikaKeyboard :=
  {| input := input kb;
     powerHitKeyIsDownPrevious := powerHitKeyIsDownPrevious kb;
     keys := keys kb; extraKeys := k :: extraKeys kb |}.

(** ** Vocabulary of the further properties *)

(** Run-length encoding as usually defined: the maximal runs of equal
    neighbours, each with its length, built from the right. *)
Definition consRun (a : option string) (n : nat)
  (runs : list (option string * nat)) : list (option string * nat) :=
  match runs with
  | (b, m) :: rest =>
      if strictEq a b then (b, (n + m)%nat) :: rest
      else (a, n) :: (b, m) :: rest
  | [] => [(a, n)]
  end.

Fixpoint maximalRuns (arr : list (option string))
  : list (option string * nat) :=
  match arr with
  | [] => []
  | a :: rest => consRun a 1 (maximalRuns rest)
  end.

(** The array a list of runs stands for. *)
Fixpoint expandRuns (runs : list (option string * nat))
  : list (option string) :=
  match runs with
  | [] => []
  | (a, n) :: rest => (repeat a n ++ expandRuns rest)%list
  end.

(** The text of a list of runs, each printed as [concatListAsString]
    prints one. *)
Fixpoint printRuns (runs : list (option string * nat)) : string :=
  match runs with
  | [] => ""
  | (a, n) :: rest => plusCount a n ++ printRuns rest
  end.

(** Neighbouring runs carry different values and no run is empty. *)
Fixpoint runsMaximal (runs : list (option string * nat)) : Prop :=
  match runs with
  | [] => True
  | (a, n) :: rest =>
      (1 <= n)%nat
      /\ match rest with
         | (b, _) :: _ => a <> b
         | [] => True
         end
      /\ runsMaximal rest
  end.

(** The direction and power-hit letters of a token. *)
Definition isLetter (c : ascii) : bool :=
  existsb (Ascii.eqb c) ["U"; "D"; "L"; "R"; "H"]%char.

(** The string is empty or its first character fails [p]. *)
Definition headFails (p : ascii -> bool) (s : string) : bool :=
  match s with
  | EmptyString => true
  | String c _ => negb (p c)
  end.

(** Reading back a decimal number. *)
Definition parseNumber (s : string) : option nat :=
  option_map Nat.of_uint (NilZero.uint_of_string s).

(** The string without its last character. *)
Fixpoint butLast (s : string) : string :=
  match s with
  | EmptyString => EmptyString
  | String c rest =>
      match rest with
      | EmptyString => EmptyString
      | _ => String c (butLast rest)
      end
  end.

(** The text of the most recent flush in a history, empty when there was
    none. *)
Definition lastShown (h : list Obs) : string :=
  fold_left (fun shown o => match o with
                            | ObsFlush _ s => s
                            | _ => shown
                            end) h "".

(** The states a game passes before its first round. *)
Definition beforePlay (s : GameState) : bool :=
  match s with
  | Intro | Menu | AfterMenuSelection | BeforeStartOfNewGame
  | StartOfNewGame => true
  | _ => false
  end.

(** What the controller keeps besides [Inv], for a winning score [w]. *)
Record Inv2 (w : Z) (g : Game) : Prop := mkInv2 {
  inv2_winning : winningScore g = w;
  inv2_running : 0 < w ->
                 gameEnded g = false
                 /\ isWinner (player1 g) = false
                 /\ isWinner (player2 g) = false
                 /\ playerGameEnded (player1 g) = false
                 /\ playerGameEnded (player2 g) = false;
  inv2_fresh : 0 < w -> beforePlay (state g) = true -> ActList g = [];
  inv2_shown : codeViewerOutput g = lastShown (history g)
}.

(** The letters of an input, vertical direction first, then horizontal,
    then the power hit. *)
Definition directionLetters (u : PikaUserInput) : string :=
  (if yDirection u =? -1 then "U" else if yDirection u =? 1 then "D" else "")
  ++ (if xDirection u =? -1 then "L"
      else if xDirection u =? 1 then "R" else "")
  ++ (if powerHit u =? 1 then "H" else "").

(** The first two statements of [gameLoop()]: both keyboards read their
    keys. *)
Definition readKeyboards (t : Tick) (g : Game) : Game :=
  set_keyboard1 (getInput (pressKeys (keys1 t) (keyboard1 g)))
    (set_keyboard0 (getInput (pressKeys (keys0 t) (keyboard0 g))) g).

(** ** Runs used by the revised claims *)

(** Keyboard 0 with only its down key pressed, and keyboard 1 with its left
    and power-hit keys pressed. *)
Definition downKeys0 : KeyArray * list Key :=
  (mkKeys (newKey "KeyD") (newKey "KeyG") (newKey "KeyR") (mkKey "KeyV" true)
     (newKey "KeyZ"), []).

Definition downHitKeys0 : KeyArray * list Key :=
  (mkKeys (newKey "KeyD") (newKey "KeyG") (newKey "KeyR") (mkKey "KeyV" true)
     (mkKey "KeyZ" true), []).

Definition leftHitKeys1 : KeyArray * list Key :=
  (mkKeys (mkKey "ArrowLeft" true) (newKey "ArrowRight") (newKey "ArrowUp")
     (newKey "ArrowDown") (mkKey "Enter" true), []).

Definition hitKeys1 : KeyArray * list Key :=
  (mkKeys (newKey "ArrowLeft") (newKey "ArrowRight") (newKey "ArrowUp")
     (newKey "ArrowDown") (mkKey "Enter" true), []).

(** A tick on which the two keyboards press different things. *)
Definition mixedTick : Tick := mkTick downKeys0 leftHitKeys1 false 0.

(** The opening followed by the example scenario: three ticks with the left
    key, one with Z pressed, and one with Z still held while Enter is
    pressed for the first time, the ball touching the ground on it. *)
Definition scenarioEvents : list Event :=
  (opening
   ++ [leftTick; leftTick; leftTick; hitTick;
       EvTick (mkTick hitKeys0 hitKeys1 true 100)])%list.

(** An opening that chooses "with friend": Z leaves the intro and skips the
    menu animation, then the down key and Z together select and confirm. *)
Definition openingWithFriend : list Event :=
  ([hitTick; idleTick; hitTick; idleTick;
    EvTick (mkTick downHitKeys0 idleKeys1 false 0)]
   ++ repeat idleTick
        (Z.to_nat (frameTotal_afterMenuSelection
                   + frameTotal_beforeStartOfNewGame
                   + frameTotal_startOfNewGame)))%list.




(** * Properties *)

(** ** Strings and decimal numbers *)

Lemma append_assoc (a b c : string) : (a ++ b) ++ c = a ++ b ++ c.
Proof. induction a as [|ch a IH]; simpl; [reflexivity | now rewrite IH]. Qed.

Lemma append_empty_r (a : string) : a ++ "" = a.
Proof. induction a as [|ch a IH]; simpl; [reflexivity | now rewrite IH]. Qed.

Lemma allDigits_uint (d : Decimal.uint) :
  allDigits (NilEmpty.string_of_uint d) = true.
Proof. induction d; simpl; auto. Qed.

Lemma numberToString_digits (n : nat) : allDigits (numberToString n) = true.
Proof.
  unfold numberToString, NilZero.string_of_uint.
  destruct (Nat.to_uint n) eqn:E; try reflexivity;
    rewrite <- E; apply allDigits_uint.
Qed.

Lemma numberToString_nonempty (n : nat) : numberToString n <> "".
Proof.
  unfold numberToString, NilZero.string_of_uint.
  destruct (Nat.to_uint n); simpl; discriminate.
Qed.

Lemma allChars_append (p : ascii -> bool) (a b : string) :
  allChars p (a ++ b) = allChars p a && allChars p b.
Proof.
  induction a as [|ch a IH]; simpl; [reflexivity|].
  now rewrite IH, andb_assoc.
Qed.

Lemma allChars_weaken (p q : ascii -> bool) (s : string) :
  (forall c, p c = true -> q c = true) ->
  allChars p s = true -> allChars q s = true.
Proof.
  intros Hpq. induction s as [|ch s IH]; simpl; [reflexivity|].
  intros H. apply andb_true_iff in H as [H1 H2].
  now rewrite (Hpq _ H1), IH.
Qed.

Lemma allDigits_allChars (s : string) : allDigits s = allChars isDigit s.
Proof. induction s as [|ch s IH]; simpl; [reflexivity | now rewrite IH]. Qed.

(** ** The tokenizer *)

Lemma validInput_In (u : PikaUserInput) : validInput u <-> In u validInputs.
Proof.
  split.
  - destruct u as [x y h]. unfold validInput. simpl.
    intros [[->| [->| ->]] [[->| [->| ->]] [->| ->]]]; simpl; tauto.
  - simpl. intros H.
    repeat (destruct H as [<-|H]; [unfold validInput; simpl; lia|]).
    destruct H.
Qed.

Lemma encodeUserInput_defined (u : PikaUserInput) (playerNum : Z) :
  In u validInputs -> exists t, encodeUserInput u playerNum = Some t.
Proof.
  intros H. unfold encodeUserInput.
  destruct (playerNum =? 1); simpl in H;
    repeat (destruct H as [<-|H]; [simpl; eauto|]); destruct H.
Qed.

Lemma encodeUserInput_token (u : PikaUserInput) (playerNum : Z) (t : string) :
  In u validInputs -> encodeUserInput u playerNum = Some t ->
  In t (tokens playerNum).
Proof.
  intros Hu Ht. unfold tokens. apply in_flat_map. exists u. split; auto.
  rewrite Ht. now left.
Qed.

Lemma encodeUserInput_injective (u v : PikaUserInput) (playerNum : Z) :
  In u validInputs -> In v validInputs ->
  encodeUserInput u playerNum = encodeUserInput v playerNum -> u = v.
Proof.
  intros Hu Hv. unfold encodeUserInput.
  destruct (playerNum =? 1); simpl in Hu, Hv;
    repeat (destruct Hu as [<-|Hu]; [
      repeat (destruct Hv as [<-|Hv];
              [simpl; intros E; first [reflexivity | discriminate E]|]);
      destruct Hv |]);
    destruct Hu.
Qed.

Lemma encodeUserInput_undefined (u : PikaUserInput) (playerNum : Z) :
  encodeUserInput u playerNum = None -> ~ In u validInputs.
Proof.
  intros E Hu. destruct (encodeUserInput_defined u playerNum Hu) as [t Ht].
  congruence.
Qed.

Lemma tokens_shape (playerNum : Z) (t : string) :
  In t (tokens playerNum) ->
  exists rest, t = String "-" rest /\ allChars isSymbolChar t = true.
Proof.
  unfold tokens, encodeUserInput. destruct (playerNum =? 1); simpl;
    intros H;
    repeat (destruct H as [<-|H]; [eexists; split; reflexivity|]);
    destruct H.
Qed.

(** ** Run-length compression *)

Lemma strictEq_refl (a : option string) : strictEq a a = true.
Proof. destruct a; simpl; [apply String.eqb_refl | reflexivity]. Qed.

Lemma strictEq_Some_neq (a b : string) :
  a <> b -> strictEq (Some a) (Some b) = false.
Proof. intros H. simpl. now apply String.eqb_neq. Qed.

Lemma concatLoop_repeat (t : string) (k : nat) :
  forall (result : string) (count : nat),
    concatLoop (repeat (Some t) k) result (Some t) count
    = result ++ t ++ numberToString (count + k).
Proof.
  induction k as [|k IH]; intros result count; simpl.
  - now rewrite Nat.add_0_r.
  - rewrite String.eqb_refl, IH. now rewrite Nat.add_succ_r.
Qed.

Lemma concatLoop_distinct (ts : list string) :
  forall (result current : string),
    noAdjacentEqual (current :: ts) ->
    concatLoop (map Some ts) result (Some current) 1
    = result ++ runsText (map (fun t => (t, "1")) (current :: ts)).
Proof.
  induction ts as [|t ts IH]; intros result current H.
  - reflexivity.
  - destruct H as [Hne H]. cbn [map concatLoop].
    rewrite strictEq_Some_neq by congruence.
    rewrite IH by exact H.
    cbn [map runsText fst snd plusCount]. now rewrite !append_assoc.
Qed.

Lemma concatLoop_runs (playerNum : Z) (arr : list (option string)) :
  forall (result current : string) (count : nat),
    Forall (fun a => exists t, a = Some t /\ In t (tokens playerNum)) arr ->
    In current (tokens playerNum) ->
    exists runs,
      Forall (isRun playerNum) ((current, numberToString 0) :: runs)
      /\ exists digits,
           allDigits digits = true /\ digits <> ""
           /\ concatLoop arr result (Some current) count
              = result ++ runsText ((current, digits) :: runs).
Proof.
  assert (Hrun : forall c n, In c (tokens playerNum) ->
                             isRun playerNum (c, numberToString n)).
  { intros c n Hc. repeat split; simpl; auto using numberToString_digits,
      numberToString_nonempty. }
  induction arr as [|a arr IH]; intros result current count Harr Hcur.
  - exists []. split; [constructor; [apply Hrun; auto | constructor]|].
    exists (numberToString count).
    repeat split; auto using numberToString_digits, numberToString_nonempty.
    cbn [concatLoop runsText fst snd plusCount].
    now rewrite append_empty_r.
  - inversion Harr as [|? ? (t & -> & Ht) Hrest]; subst. cbn [concatLoop].
    destruct (strictEq (Some t) (Some current)).
    + apply IH; auto.
    + destruct (IH (result ++ plusCount (Some current) count) t 1%nat
                  Hrest Ht) as (runs & Hruns & digits & Hd & Hne & Heq).
      exists ((t, digits) :: runs). split.
      * constructor; [apply Hrun; auto|].
        inversion Hruns as [|? ? _ Hr]; subst.
        constructor; [|exact Hr]. repeat split; auto.
      * exists (numberToString count).
        repeat split; auto using numberToString_digits,
          numberToString_nonempty.
        rewrite Heq. cbn [plusCount runsText fst snd].
        now rewrite !append_assoc.
Qed.

Lemma runsText_chars (playerNum : Z) (runs : list (string * string)) :
  Forall (isRun playerNum) runs ->
  allChars (fun c => isSymbolChar c || isDigit c) (runsText runs) = true.
Proof.
  induction 1 as [|r runs (Htok & _ & Hdig) _ IH]; [reflexivity|].
  cbn [runsText]. rewrite !allChars_append, IH.
  destruct (tokens_shape _ _ Htok) as (rest & _ & Hsym).
  rewrite (allChars_weaken isSymbolChar _ (fst r)); auto.
  - rewrite (allChars_weaken isDigit _ (snd r)); auto.
    + intros c Hc. now rewrite Hc, orb_true_r.
    + now rewrite <- allDigits_allChars.
  - intros c Hc. now rewrite Hc.
Qed.

(** The text shown for a non-empty log of valid inputs: the runs of the
    side that was encoded, without the first character. *)
Lemma serveCodeShown_runs (log : list PikaUserInput) (b : bool) :
  log <> [] -> Forall validInput log ->
  exists runs,
    runs <> []
    /\ Forall (isRun (if b then 2 else 1)) runs
    /\ String "-" (serveCodeShown log b) = runsText runs
    /\ allChars (fun c => isSymbolChar c || isDigit c) (serveCodeShown log b)
       = true.
Proof.
  intros Hne Hvalid. set (p := if b then 2 else 1).
  assert (Hshown : serveCodeShown log b
                   = slice 1 (concatListAsString (encodeActList log p))).
  { unfold serveCodeShown, p. now destruct b. }
  destruct log as [|u log]; [congruence|].
  inversion Hvalid as [|? ? Hu Hlog]; subst.
  apply validInput_In in Hu.
  destruct (encodeUserInput_defined u p Hu) as [t Ht].
  assert (Htok : In t (tokens p)) by eauto using encodeUserInput_token.
  assert (Harr : Forall (fun a => exists t, a = Some t /\ In t (tokens p))
                   (encodeActList log p)).
  { unfold encodeActList. apply Forall_forall. intros a Ha.
    apply in_map_iff in Ha as (v & <- & Hv).
    rewrite Forall_forall in Hlog. apply Hlog, validInput_In in Hv.
    destruct (encodeUserInput_defined v p Hv) as [tv Htv].
    exists tv. eauto using encodeUserInput_token. }
  destruct (concatLoop_runs p _ "" t 1%nat Harr Htok)
    as (runs & Hruns & digits & Hd & Hdne & Heq).
  exists ((t, digits) :: runs).
  assert (Hall : Forall (isRun p) ((t, digits) :: runs)).
  { inversion Hruns as [|? ? _ Hr]; subst. constructor; auto.
    repeat split; auto. }
  assert (Htext : concatListAsString (encodeActList (u :: log) p)
                  = runsText ((t, digits) :: runs)).
  { cbn [encodeActList map concatListAsString]. rewrite Ht.
    exact Heq. }
  pose proof (runsText_chars p _ Hall) as Hchars.
  destruct (tokens_shape _ _ Htok) as (rest & -> & _).
  rewrite Hshown, Htext. rewrite Htext in Hshown.
  cbn [runsText fst snd] in *. cbn [append slice] in *.
  repeat split; auto. discriminate.
Qed.

(** ** The encoder: claims *)

(** The text [round] shows for the log of the example scenario. *)
Lemma scenario_shown : serveCodeShown scenarioLog false = "L/3-H/2".
Proof. reflexivity. Qed.

(** C3, as stated, fails: the tick without direction and without power hit
    has the same token on both sides. *)
Lemma C3_counterexample :
  In (mkInput 0 0 0) validInputs
  /\ encodeUserInput (mkInput 0 0 0) 1 = Some "-/"
  /\ encodeUserInput (mkInput 0 0 0) 2 = Some "-/"
  /\ ~ (forall u, In u validInputs ->
                  encodeUserInput u 1 <> encodeUserInput u 2).
Proof.
  assert (H : In (mkInput 0 0 0) validInputs) by (simpl; tauto).
  repeat split; auto.
  intros Hall. now apply (Hall (mkInput 0 0 0) H).
Qed.

(** C3, amended. For every valid input other than (0, 0, 0) there is a
    non-empty symbol such that the side-1 token is "-" symbol "/" and the
    side-2 token is "-/" symbol, and the two tokens differ; a side-1 token
    and a side-2 token of valid inputs coincide only when both inputs are
    (0, 0, 0), whose token is "-/" on both sides. *)
Theorem C3_sides_differ_except_neutral :
  (forall u, In u validInputs -> u <> mkInput 0 0 0 ->
     exists symbol,
       symbol <> ""
       /\ encodeUserInput u 1 = Some ("-" ++ symbol ++ "/")
       /\ encodeUserInput u 2 = Some ("-/" ++ symbol)
       /\ encodeUserInput u 1 <> encodeUserInput u 2)
  /\ (forall u v, In u validInputs -> In v validInputs ->
        encodeUserInput u 1 = encodeUserInput v 2 ->
        u = mkInput 0 0 0 /\ v = mkInput 0 0 0).
Proof.
  split.
  - intros u Hu Hne.
    exists (match encodeUserInput u 2 with
            | Some t => slice 2 t
            | None => ""
            end).
    simpl in Hu.
    repeat (destruct Hu as [<-|Hu];
            [first [congruence
                   | repeat split; try reflexivity; simpl; discriminate]|]).
    destruct Hu.
  - intros u v Hu Hv. simpl in Hu, Hv.
    repeat (destruct Hu as [<-|Hu]; [
      repeat (destruct Hv as [<-|Hv];
              [simpl; intros E; first [discriminate E | now split]|]);
      destruct Hv |]);
    destruct Hu.
Qed.

Lemma C3_sides_differ_except_neutral_witness :
  exists symbol,
    symbol <> ""
    /\ encodeUserInput (mkInput (-1) 0 1) 1 = Some ("-" ++ symbol ++ "/")
    /\ encodeUserInput (mkInput (-1) 0 1) 2 = Some ("-/" ++ symbol)
    /\ encodeUserInput (mkInput (-1) 0 1) 1
       <> encodeUserInput (mkInput (-1) 0 1) 2.
Proof.
  apply (proj1 C3_sides_differ_except_neutral (mkInput (-1) 0 1)).
  - simpl. tauto.
  - discriminate.
Defined.

(** C4. For every N >= 1, compressing N copies of one token yields the
    single run token N; compressing a token list without two equal
    neighbours yields one run per token, each with count 1, in the order of
    the list. *)
Theorem C4_run_length :
  (forall (t : string) (N : nat), (1 <= N)%nat ->
     concatListAsString (repeat (Some t) N) = t ++ numberToString N)
  /\ (forall ts : list string, noAdjacentEqual ts ->
        concatListAsString (map Some ts)
        = runsText (map (fun t => (t, "1")) ts)
        /\ List.length (map (fun t => (t, "1")) ts) = List.length ts).
Proof.
  split.
  - intros t N HN. destruct N as [|k]; [lia|].
    cbn [repeat concatListAsString]. now rewrite concatLoop_repeat.
  - intros ts Hts. split; [|apply length_map].
    destruct ts as [|t ts]; [reflexivity|].
    cbn [map concatListAsString]. now rewrite concatLoop_distinct.
Qed.

Lemma C4_run_length_witness :
  concatListAsString (repeat (Some "-L/") 12) = "-L/12"
  /\ concatListAsString (map Some ["-L/"; "-/"; "-L/"]) = "-L/1-/1-L/1".
Proof.
  split.
  - apply (proj1 C4_run_length "-L/" 12%nat). lia.
  - apply (proj2 C4_run_length ["-L/"; "-/"; "-L/"]).
    simpl. repeat split; discriminate.
Defined.

(** ** The keyboard *)

Lemma getInput_valid (kb : PikaKeyboard) : validInput (input (getInput kb)).
Proof.
  unfold validInput, getInput. simpl.
  destruct (leftPressed kb), (rightPressed kb), (upPressed kb),
    (downPressed kb), (negb (powerHitKeyIsDownPrevious kb)
                       && powerHitPressed kb); lia.
Qed.

Lemma getInput_powerHit (ks : KeyArray * list Key) (kb : PikaKeyboard) :
  powerHit (input (getInput (pressKeys ks kb)))
  = (if powerHitKeyDown ks && negb (powerHitKeyIsDownPrevious kb)
     then 1 else 0)
  /\ powerHitKeyIsDownPrevious (getInput (pressKeys ks kb))
     = powerHitKeyDown ks.
Proof.
  split; [|reflexivity].
  unfold getInput. cbn [input powerHit].
  change (powerHitPressed (pressKeys ks kb)) with (powerHitKeyDown ks).
  cbn [pressKeys powerHitKeyIsDownPrevious].
  now rewrite andb_comm.
Qed.

(** C9. For every sequence of per-tick key states, the power hit read at
    tick [i] is 1 exactly when the power-hit key is down at tick [i] and was
    not down at the tick before, and 0 otherwise. *)
Theorem C9_powerHit_edge_triggered :
  forall (ticks : list (KeyArray * list Key)) (kb : PikaKeyboard) (i : nat)
         (ks : KeyArray * list Key),
    nth_error ticks i = Some ks ->
    option_map powerHit (nth_error (getInputs kb ticks) i)
    = Some (if powerHitKeyDown ks && negb (wasDownBefore kb ticks i)
            then 1 else 0).
Proof.
  induction ticks as [|k ticks IH]; intros kb i ks Hi.
  - destruct i; discriminate.
  - destruct i as [|j]; cbn [getInputs nth_error] in *.
    + injection Hi as ->. cbn [option_map wasDownBefore].
      now rewrite (proj1 (getInput_powerHit ks kb)).
    + rewrite (IH _ j ks Hi). destruct j as [|j']; reflexivity.
Qed.

Lemma C9_powerHit_edge_triggered_witness :
  option_map powerHit
    (nth_error (getInputs (newPikaKeyboard "KeyD" "KeyG" "KeyR" "KeyV" "KeyZ" [])
                  [hitKeys0; hitKeys0; idleKeys0; hitKeys0]) 1)
  = Some 0
  /\ option_map powerHit
       (nth_error (getInputs (newPikaKeyboard "KeyD" "KeyG" "KeyR" "KeyV" "KeyZ" [])
                     [hitKeys0; hitKeys0; idleKeys0; hitKeys0]) 3)
     = Some 1.
Proof.
  split.
  - apply (C9_powerHit_edge_triggered
             [hitKeys0; hitKeys0; idleKeys0; hitKeys0] _ 1%nat hitKeys0).
    reflexivity.
  - apply (C9_powerHit_edge_triggered
             [hitKeys0; hitKeys0; idleKeys0; hitKeys0] _ 3%nat hitKeys0).
    reflexivity.
Defined.

(** ** The controller: invariant *)

Lemma roundTicksSinceClear_snoc (h : list Obs) (o : Obs) :
  roundTicksSinceClear (h ++ [o]) = countTick (roundTicksSinceClear h) o.
Proof. unfold roundTicksSinceClear. now rewrite fold_left_app. Qed.

Lemma flushesOk_nil : flushesOk [].
Proof. intros [|? ?] h2 log shown H; discriminate H. Qed.

Lemma flushesOk_snoc (h : list Obs) (o : Obs) :
  flushesOk h ->
  match o with
  | ObsFlush log shown => flushOk h log shown
  | _ => True
  end ->
  flushesOk (h ++ [o]).
Proof.
  intros Hh Ho h1 h2 log shown E.
  destruct (exists_last (l := ObsFlush log shown :: h2)) as (h2' & o' & E2);
    [discriminate|].
  rewrite E2, app_assoc in E. apply app_inj_tail in E as [Eh Eo].
  destruct h2' as [|f h2']; simpl in E2; injection E2 as E3 E4; subst.
  - rewrite app_nil_r in Ho. exact Ho.
  - eapply Hh. reflexivity.
Qed.

Ltac destruct_atom b :=
  match b with
  | andb ?x ?y => first [destruct_atom x | destruct_atom y]
  | orb ?x ?y => first [destruct_atom x | destruct_atom y]
  | negb ?x => destruct_atom x
  | _ => destruct b eqn:?
  end.

Ltac split_ifs :=
  repeat (match goal with
          | |- context [if ?b then _ else _] => destruct_atom b
          end; cbn).

Ltac destruct_game g :=
  let p1 := fresh "p1" in
  let p2 := fresh "p2" in
  destruct g as [? ? ? ? ? ? ? ? ? ? ? ? ? p1 p2 ? ? ? ? ?];
  destruct p1 as [c1 w1 e1], p2 as [c2 w2 e2].

Ltac unfold_controller :=
  cbv beta delta
    [recordedInput intro menu afterMenuSelection beforeStartOfNewGame
     startOfNewGame round afterEndOfRound beforeStartOfNextRound restart
     recordAndFlush afterEngine gameEndBlock scoringBlock isScoringTouch
     flush recordInput clearActList push mergeKeyboards note anyPowerHit]
    in *.

Lemma Inv_newGame (w : Z) : Inv (newGame w).
Proof.
  constructor; simpl; try (unfold validInput; simpl; lia); auto;
    try (intros; discriminate).
  apply flushesOk_nil.
Qed.


(** *** The first half of [round()] *)

Lemma recordAndFlush_log (touch : bool) (g : Game) :
  ActList (recordAndFlush touch g)
  = if touch then [] else (ActList g ++ [recordedInput g])%list.
Proof. destruct_game g. destruct touch, c1, c2; reflexivity. Qed.

Lemma recordAndFlush_history (touch : bool) (g : Game) :
  history (recordAndFlush touch g)
  = (history g
     ++ ObsPush (recordedInput g)
        :: (if touch
            then [ObsFlush (ActList g ++ [recordedInput g])
                    (serveCodeShown (ActList g ++ [recordedInput g])
                       (isComputer (player1 g)));
                  ObsClear]
            else []))%list.
Proof.
  destruct_game g.
  destruct touch, c1, c2; unfold_controller; cbn;
    rewrite <- ?app_assoc; reflexivity.
Qed.

Lemma recordAndFlush_keyboards (touch : bool) (g : Game) :
  keyboard0 (recordAndFlush touch g) = keyboard0 (mergeKeyboards g)
  /\ keyboard1 (recordAndFlush touch g) = keyboard1 (mergeKeyboards g).
Proof. destruct_game g. destruct touch, c1, c2; split; reflexivity. Qed.

Lemma recordAndFlush_frame (touch : bool) (g : Game) :
  let g' := recordAndFlush touch g in
  state g' = state g /\ scores g' = scores g
  /\ winningScore g' = winningScore g /\ gameEnded g' = gameEnded g
  /\ roundEnded g' = roundEnded g /\ isPracticeMode g' = isPracticeMode g
  /\ player1 g' = player1 g /\ player2 g' = player2 g
  /\ isPlayer2Serve g' = isPlayer2Serve g
  /\ slowMotionFramesLeft g' = slowMotionFramesLeft g
  /\ frameCounter g' = frameCounter g.
Proof.
  destruct_game g. destruct touch, c1, c2; repeat split; reflexivity.
Qed.

(** *** The second half of [round()] *)

Lemma afterEngine_frame (GHW : Z) (touch : bool) (px : Z) (pressed : bool)
  (g : Game) :
  let g' := afterEngine GHW touch px pressed g in
  scores g' = scores g /\ ActList g' = ActList g
  /\ history g' = history g /\ keyboard0 g' = keyboard0 g
  /\ keyboard1 g' = keyboard1 g
  /\ isComputer (player1 g') = isComputer (player1 g)
  /\ isComputer (player2 g') = isComputer (player2 g)
  /\ winningScore g' = winningScore g
  /\ codeViewerOutput g' = codeViewerOutput g.
Proof.
  destruct_game g. unfold_controller. cbn.
  split_ifs; repeat split; reflexivity.
Qed.

Lemma afterEngine_winner (GHW : Z) (touch : bool) (px : Z) (pressed : bool)
  (g : Game) :
  (gameEnded g = true -> isWinner (player1 g) = negb (isWinner (player2 g))) ->
  let g' := afterEngine GHW touch px pressed g in
  gameEnded g' = true -> isWinner (player1 g') = negb (isWinner (player2 g')).
Proof.
  destruct_game g. unfold_controller. cbn.
  intros H. split_ifs; cbn in *; auto; try discriminate.
Qed.

(** *** Every step keeps the invariant *)

Lemma js_or_cases (a b : Z) : js_or a b = a \/ js_or a b = b.
Proof. unfold js_or. destruct (a =? 0); auto. Qed.

Lemma mergeInto_valid (k0 k1 : PikaKeyboard) :
  validInput (input k0) -> validInput (input k1) ->
  validInput (mergeInto k0 k1).
Proof.
  unfold validInput, mergeInto. cbn.
  intros (Hx0 & Hy0 & Hh0) (Hx1 & Hy1 & Hh1).
  destruct (js_or_cases (xDirection (input k0)) (xDirection (input k1)))
    as [-> | ->],
    (js_or_cases (yDirection (input k0)) (yDirection (input k1)))
    as [-> | ->],
    (js_or_cases (powerHit (input k0)) (powerHit (input k1)))
    as [-> | ->]; auto.
Qed.

Lemma mergeKeyboards_valid (g : Game) :
  validInput (input (keyboard0 g)) -> validInput (input (keyboard1 g)) ->
  validInput (input (keyboard0 (mergeKeyboards g)))
  /\ validInput (input (keyboard1 (mergeKeyboards g))).
Proof.
  intros H0 H1. destruct_game g. cbn in H0, H1.
  destruct c1, c2; cbn; auto using mergeInto_valid.
  split; [|auto using mergeInto_valid].
  apply mergeInto_valid; cbn; auto using mergeInto_valid.
Qed.

Lemma recordedInput_valid (g : Game) :
  validInput (input (keyboard0 g)) -> validInput (input (keyboard1 g)) ->
  validInput (recordedInput g).
Proof.
  intros H0 H1. destruct (mergeKeyboards_valid g H0 H1) as [M0 M1].
  unfold recordedInput. now destruct (isComputer (player1 g)).
Qed.

Lemma round_unfold (GHW : Z) (touch : bool) (px : Z) (g : Game) :
  leavesRoundAtOnce g = false ->
  round GHW touch px g
  = afterEngine GHW touch px (anyPowerHit g)
      (recordAndFlush touch (note ObsRoundTick g)).
Proof.
  intros H. unfold round. cbv zeta.
  change (isComputer (player1 (note ObsRoundTick g))
          && isComputer (player2 (note ObsRoundTick g))
          && anyPowerHit (note ObsRoundTick g))
    with (leavesRoundAtOnce g).
  rewrite H. reflexivity.
Qed.

Lemma Inv_round (GHW : Z) (touch : bool) (px : Z) (g : Game) :
  state g = Round -> Inv g -> Inv (round GHW touch px g).
Proof.
  intros Hst [Hs Hl Hk0 Hk1 Hh Hw Hc Hf].
  assert (Hhuman : isComputer (player1 g) && isComputer (player2 g) = false)
    by (apply Hh; now rewrite Hst).
  rewrite round_unfold by (unfold leavesRoundAtOnce; now rewrite Hhuman).
  set (g1 := note ObsRoundTick g).
  set (g2 := recordAndFlush touch g1).
  destruct (afterEngine_frame GHW touch px (anyPowerHit g) g2)
    as (Es & El & Eh & Ek0 & Ek1 & Ec1 & Ec2 & _).
  destruct (recordAndFlush_frame touch g1)
    as (Fst & Fs & _ & Fe & _ & _ & Fp1 & Fp2 & _).
  destruct (recordAndFlush_keyboards touch g1) as [Fk0 Fk1].
  pose proof (recordAndFlush_log touch g1) as Fl.
  pose proof (recordAndFlush_history touch g1) as Fh.
  fold g2 in Fst, Fs, Fe, Fp1, Fp2, Fk0, Fk1, Fl, Fh.
  assert (Hsnap : validInput (recordedInput g1))
    by (apply recordedInput_valid; assumption).
  destruct (mergeKeyboards_valid g1 Hk0 Hk1) as [M0 M1].
  assert (Hlog1 : Forall validInput (ActList g1 ++ [recordedInput g1])).
  { apply Forall_app. split; [exact Hl | now constructor]. }
  assert (Hcount1 : List.length (ActList g1 ++ [recordedInput g1])
                    = roundTicksSinceClear (history g1)).
  { change (ActList g1) with (ActList g).
    change (history g1) with (history g ++ [ObsRoundTick])%list.
    rewrite length_app, roundTicksSinceClear_snoc. cbn [countTick].
    rewrite Hc. cbn. lia. }
  assert (Hf1 : flushesOk (history g1)).
  { change (history g1) with (history g ++ [ObsRoundTick])%list.
    now apply flushesOk_snoc. }
  constructor.
  - now rewrite Es, Fs.
  - rewrite El, Fl. destruct touch; [constructor | exact Hlog1].
  - now rewrite Ek0, Fk0.
  - now rewrite Ek1, Fk1.
  - intros _. now rewrite Ec1, Ec2, Fp1, Fp2.
  - apply afterEngine_winner. fold g2. rewrite Fe, Fp1, Fp2. exact Hw.
  - rewrite El, Eh, Fl, Fh.
    change (ObsPush (recordedInput g1) :: ?l)
      with ([ObsPush (recordedInput g1)] ++ l)%list.
    destruct touch.
    + change ([?a; ?b]) with ([a] ++ [b])%list.
      rewrite !app_assoc, roundTicksSinceClear_snoc. reflexivity.
    + rewrite app_nil_r, roundTicksSinceClear_snoc. cbn [countTick].
      exact Hcount1.
  - rewrite Eh, Fh.
    change (ObsPush (recordedInput g1) :: ?l)
      with ([ObsPush (recordedInput g1)] ++ l)%list.
    destruct touch.
    + change ([?a; ?b]) with ([a] ++ [b])%list.
      rewrite !app_assoc.
      apply flushesOk_snoc; [|exact I].
      apply flushesOk_snoc; [apply flushesOk_snoc; [exact Hf1 | exact I]|].
      repeat split.
      * rewrite roundTicksSinceClear_snoc. exact Hcount1.
      * intros E. now apply app_eq_nil in E as [_ E].
      * exact Hlog1.
      * eexists. reflexivity.
    + rewrite app_nil_r. apply flushesOk_snoc; [exact Hf1 | exact I].
Qed.

Ltac inv_simple g :=
  let Hs := fresh "Hs" in let Hl := fresh "Hl" in
  let Hk0 := fresh "Hk0" in let Hk1 := fresh "Hk1" in
  let Hh := fresh "Hh" in let Hw := fresh "Hw" in
  let Hc := fresh "Hc" in let Hf := fresh "Hf" in
  intros [Hs Hl Hk0 Hk1 Hh Hw Hc Hf];
  destruct_game g; cbn in *; unfold_controller; cbn;
  split_ifs; constructor; cbn;
  auto; try (intros; discriminate); try (intros; congruence).

Lemma Inv_intro (g : Game) : Inv g -> Inv (intro g).
Proof. inv_simple g. Qed.

Lemma Inv_menu (g : Game) : Inv g -> Inv (menu g).
Proof.
  inv_simple g.
  all: repeat match goal with
              | H : ?x = _, H' : context [?x] |- _ => rewrite H in H'
              end; cbn in *; try discriminate.
Qed.

Lemma Inv_afterMenuSelection (g : Game) :
  state g = AfterMenuSelection -> Inv g -> Inv (afterMenuSelection g).
Proof. intros Hst. inv_simple g; subst; auto. Qed.

Lemma Inv_beforeStartOfNewGame (g : Game) :
  state g = BeforeStartOfNewGame -> Inv g -> Inv (beforeStartOfNewGame g).
Proof. intros Hst. inv_simple g; subst; auto. Qed.

Lemma Inv_startOfNewGame (g : Game) :
  state g = StartOfNewGame -> Inv g -> Inv (startOfNewGame g).
Proof. intros Hst. inv_simple g; subst; auto. Qed.

Lemma Inv_afterEndOfRound (g : Game) :
  state g = AfterEndOfRound -> Inv g -> Inv (afterEndOfRound g).
Proof. intros Hst. inv_simple g; subst; auto. Qed.

Lemma Inv_clear (h : list Obs) :
  flushesOk h ->
  O = roundTicksSinceClear (h ++ [ObsClear]) /\ flushesOk (h ++ [ObsClear]).
Proof.
  intros H. split.
  - now rewrite roundTicksSinceClear_snoc.
  - now apply flushesOk_snoc.
Qed.

Lemma Inv_beforeStartOfNextRound (g : Game) :
  state g = BeforeStartOfNextRound -> Inv g ->
  Inv (beforeStartOfNextRound g).
Proof. intros Hst. inv_simple g; subst; auto; now apply Inv_clear. Qed.

Lemma Inv_restart (g : Game) : Inv g -> Inv (restart g).
Proof. inv_simple g; now apply Inv_clear. Qed.

Lemma Inv_runState (GHW : Z) (t : Tick) (g : Game) :
  Inv g -> Inv (runState GHW t g).
Proof.
  intros H. unfold runState. destruct (state g) eqn:Hst;
    auto using Inv_intro, Inv_menu, Inv_afterMenuSelection,
      Inv_beforeStartOfNewGame, Inv_startOfNewGame, Inv_round,
      Inv_afterEndOfRound, Inv_beforeStartOfNextRound.
Qed.

(** Writing fields the invariant does not mention, or valid inputs. *)
Lemma Inv_keyboards (k0 k1 : PikaKeyboard) (g : Game) :
  validInput (input k0) -> validInput (input k1) -> Inv g ->
  Inv (set_keyboard1 k1 (set_keyboard0 k0 g)).
Proof. intros H0 H1 [? ? ? ? ? ? ? ?]. constructor; cbn; auto. Qed.

Lemma Inv_slowMotionFramesLeft (v : Z) (g : Game) :
  Inv g -> Inv (set_slowMotionFramesLeft v g).
Proof. intros [? ? ? ? ? ? ? ?]. constructor; cbn; auto. Qed.

Lemma Inv_slowMotionNumOfSkippedFrames (v : Z) (g : Game) :
  Inv g -> Inv (set_slowMotionNumOfSkippedFrames v g).
Proof. intros [? ? ? ? ? ? ? ?]. constructor; cbn; auto. Qed.

Lemma Inv_paused (v : bool) (g : Game) : Inv g -> Inv (set_paused v g).
Proof. intros [? ? ? ? ? ? ? ?]. constructor; cbn; auto. Qed.

Lemma Inv_isPracticeMode (v : bool) (g : Game) :
  Inv g -> Inv (set_isPracticeMode v g).
Proof. intros [? ? ? ? ? ? ? ?]. constructor; cbn; auto. Qed.

Lemma Inv_gameLoop (GHW : Z) (t : Tick) (g : Game) :
  Inv g -> Inv (gameLoop GHW t g).
Proof.
  intros H. unfold gameLoop. destruct (paused g); [exact H|].
  cbv zeta.
  match goal with
  | |- context [set_keyboard1 ?k1 (set_keyboard0 ?k0 g)] =>
      assert (H1 : Inv (set_keyboard1 k1 (set_keyboard0 k0 g)))
        by (apply Inv_keyboards; auto using getInput_valid);
      generalize dependent (set_keyboard1 k1 (set_keyboard0 k0 g))
  end.
  intros g1 H1.
  repeat match goal with
         | |- context [if ?b then _ else _] => destruct b
         end;
    auto using Inv_runState, Inv_slowMotionFramesLeft,
      Inv_slowMotionNumOfSkippedFrames.
Qed.

Lemma Inv_step (GHW : Z) (g : Game) (e : Event) :
  Inv g -> Inv (step GHW g e).
Proof.
  destruct e; cbn;
    auto using Inv_gameLoop, Inv_restart, Inv_paused, Inv_isPracticeMode.
Qed.

Lemma Inv_run (GHW : Z) (es : list Event) :
  forall g, Inv g -> Inv (run GHW g es).
Proof.
  unfold run. induction es as [|e es IH]; intros g H; cbn; [exact H|].
  apply IH, Inv_step, H.
Qed.

Lemma Inv_reachable (GHW w : Z) (es : list Event) :
  Inv (run GHW (newGame w) es).
Proof. apply Inv_run, Inv_newGame. Qed.

(** ** The controller: claims *)

Lemma firstRound_state :
  state firstRound = Round /\ isComputer (player1 firstRound) = false
  /\ isComputer (player2 firstRound) = true /\ ActList firstRound = []
  /\ scores firstRound = (0, 0) /\ winningScore firstRound = 15.
Proof. vm_compute. repeat split. Qed.

Lemma threeLefts_shown :
  codeViewerOutput (run 216 pikachuVolleyball threeLefts) = "L/3"
  /\ In (ObsFlush [mkInput (-1) 0 0; mkInput (-1) 0 0; mkInput (-1) 0 0]
           "L/3")
        (history (run 216 pikachuVolleyball threeLefts)).
Proof. vm_compute. split; [reflexivity | tauto]. Qed.

Lemma tokens_distinct (playerNum : Z) :
  List.length (tokens playerNum) = 18%nat /\ NoDup (tokens playerNum).
Proof.
  unfold tokens, encodeUserInput.
  destruct (playerNum =? 1); cbn; (split; [reflexivity|]);
    repeat (constructor; [cbn; intuition discriminate|]); constructor.
Qed.

(** C2. On each side, each of the 18 valid combinations has exactly one
    defined token, the 18 tokens are pairwise distinct, the function is
    undefined only outside the 18 combinations, and every input the
    controller ever records or encodes is one of the 18 combinations, so
    that the fall-through is never reached. *)
Theorem C2_tokenize_total_injective :
  (forall p u, p = 1 \/ p = 2 -> In u validInputs ->
     exists t, encodeUserInput u p = Some t /\ In t (tokens p))
  /\ (forall p u v, p = 1 \/ p = 2 ->
        In u validInputs -> In v validInputs ->
        encodeUserInput u p = encodeUserInput v p -> u = v)
  /\ (forall p, p = 1 \/ p = 2 ->
        List.length (tokens p) = 18%nat /\ NoDup (tokens p))
  /\ (forall p u, encodeUserInput u p = None -> ~ In u validInputs)
  /\ (forall GHW w es u,
        In u (ActList (run GHW (newGame w) es)) -> In u validInputs)
  /\ (forall GHW w es log shown u,
        In (ObsFlush log shown) (history (run GHW (newGame w) es)) ->
        In u log ->
        In u validInputs
        /\ encodeUserInput u 1 <> None /\ encodeUserInput u 2 <> None).
Proof.
  repeat split.
  - intros p u _ Hu. destruct (encodeUserInput_defined u p Hu) as [t Ht].
    eauto using encodeUserInput_token.
  - intros p u v _. apply encodeUserInput_injective.
  - apply tokens_distinct.
  - apply tokens_distinct.
  - intros p u. apply encodeUserInput_undefined.
  - intros GHW w es u Hu. apply validInput_In.
    pose proof (inv_log _ (Inv_reachable GHW w es)) as H.
    rewrite Forall_forall in H. auto.
  - apply in_split in H as (h1 & h2 & E).
    destruct (inv_flushes _ (Inv_reachable GHW w es) _ _ _ _ E)
      as (_ & _ & Hlog & _).
    rewrite Forall_forall in Hlog. now apply validInput_In, Hlog.
  - intros E. apply encodeUserInput_undefined in E. apply E.
    apply in_split in H as (h1 & h2 & E').
    destruct (inv_flushes _ (Inv_reachable GHW w es) _ _ _ _ E')
      as (_ & _ & Hlog & _).
    rewrite Forall_forall in Hlog. now apply validInput_In, Hlog.
  - intros E. apply encodeUserInput_undefined in E. apply E.
    apply in_split in H as (h1 & h2 & E').
    destruct (inv_flushes _ (Inv_reachable GHW w es) _ _ _ _ E')
      as (_ & _ & Hlog & _).
    rewrite Forall_forall in Hlog. now apply validInput_In, Hlog.
Qed.

Lemma C2_tokenize_total_injective_witness :
  (exists t, encodeUserInput (mkInput 1 (-1) 1) 2 = Some t
             /\ In t (tokens 2))
  /\ In (mkInput (-1) 0 0) validInputs.
Proof.
  split.
  - apply (proj1 C2_tokenize_total_injective 2 (mkInput 1 (-1) 1)).
    + now right.
    + simpl. tauto.
  - refine (proj1 (proj2 (proj2 (proj2 (proj2 (proj2
              C2_tokenize_total_injective))))
              216 15 threeLefts
              [mkInput (-1) 0 0; mkInput (-1) 0 0; mkInput (-1) 0 0] "L/3"
              (mkInput (-1) 0 0) _ _)).
    + apply threeLefts_shown.
    + simpl. tauto.
Defined.

(** C5, as stated, fails: after three ticks to the left the controller
    shows "L/3", which is not a concatenation of runs whose symbols are
    tokens, since every token begins with "-". *)
Lemma C5_counterexample :
  codeViewerOutput (run 216 pikachuVolleyball threeLefts) = "L/3"
  /\ ~ isServeCodeText (codeViewerOutput (run 216 pikachuVolleyball threeLefts)).
Proof.
  destruct threeLefts_shown as [E _]. split; [exact E|]. rewrite E.
  intros (p & runs & _ & Hruns & Htext).
  destruct runs as [|r runs]; [discriminate Htext|].
  inversion Hruns as [|? ? (Htok & _) _]; subst.
  destruct (tokens_shape _ _ Htok) as (rest & Hr & _).
  cbn [runsText] in Htext. rewrite Hr in Htext. discriminate Htext.
Qed.

(** C5, amended. Every text the controller shows is an ASCII string over
    U, D, L, R, H, -, / and the decimal digits, and it is the concatenation
    of at least one run symbol digits, the symbols being tokens of one
    side, with the first character (the "-" of the first token) removed. *)
Theorem C5_shown_text_format :
  forall GHW w es log shown,
    In (ObsFlush log shown) (history (run GHW (newGame w) es)) ->
    exists playerNum runs,
      (playerNum = 1 \/ playerNum = 2)
      /\ runs <> []
      /\ Forall (isRun playerNum) runs
      /\ String "-" shown = runsText runs
      /\ allChars (fun c => isSymbolChar c || isDigit c) shown = true.
Proof.
  intros GHW w es log shown H.
  apply in_split in H as (h1 & h2 & E).
  destruct (inv_flushes _ (Inv_reachable GHW w es) _ _ _ _ E)
    as (_ & Hne & Hlog & b & ->).
  destruct (serveCodeShown_runs log b Hne Hlog) as (runs & H1 & H2 & H3 & H4).
  exists (if b then 2 else 1), runs.
  repeat split; auto. destruct b; auto.
Qed.

Lemma C5_shown_text_format_witness :
  exists playerNum runs,
    (playerNum = 1 \/ playerNum = 2)
    /\ runs <> []
    /\ Forall (isRun playerNum) runs
    /\ String "-" "L/3" = runsText runs
    /\ allChars (fun c => isSymbolChar c || isDigit c) "L/3" = true.
Proof.
  apply (C5_shown_text_format 216 15 threeLefts
           [mkInput (-1) 0 0; mkInput (-1) 0 0; mkInput (-1) 0 0] "L/3").
  apply threeLefts_shown.
Defined.

(** *** Recording *)

Lemma mergeKeyboards_note (o : Obs) (g : Game) :
  keyboard0 (mergeKeyboards (note o g)) = keyboard0 (mergeKeyboards g)
  /\ keyboard1 (mergeKeyboards (note o g)) = keyboard1 (mergeKeyboards g)
  /\ recordedInput (note o g) = recordedInput g.
Proof. destruct_game g. destruct c1, c2; repeat split; reflexivity. Qed.

Lemma round_records (GHW : Z) (touch : bool) (px : Z) (g : Game) :
  isComputer (player1 g) && isComputer (player2 g) = false ->
  let g' := round GHW touch px g in
  let x := if isComputer (player1 g)
           then input (keyboard1 g') else input (keyboard0 g') in
  exists rest,
    history g' = (history g ++ ObsRoundTick :: ObsPush x :: rest)%list
    /\ (forall y, ~ In (ObsPush y) rest)
    /\ rest = (if touch
               then [ObsFlush (ActList g ++ [x])
                       (serveCodeShown (ActList g ++ [x])
                          (isComputer (player1 g)));
                     ObsClear]
               else [])
    /\ ActList g' = (if touch then [] else ActList g ++ [x])%list
    /\ x = recordedInput g.
Proof.
  intros Hhuman. cbv zeta.
  rewrite round_unfold by (unfold leavesRoundAtOnce; now rewrite Hhuman).
  set (g1 := note ObsRoundTick g).
  set (g2 := recordAndFlush touch g1).
  destruct (afterEngine_frame GHW touch px (anyPowerHit g) g2)
    as (_ & El & Eh & Ek0 & Ek1 & _).
  destruct (recordAndFlush_keyboards touch g1) as [Fk0 Fk1].
  fold g2 in Fk0, Fk1.
  rewrite El, Eh, Ek0, Ek1, Fk0, Fk1.
  unfold g2. rewrite recordAndFlush_log, recordAndFlush_history.
  destruct (mergeKeyboards_note ObsRoundTick g) as (N0 & N1 & Nr).
  fold g1 in N0, N1, Nr. rewrite N0, N1, Nr.
  change (if isComputer (player1 g)
          then input (keyboard1 (mergeKeyboards g))
          else input (keyboard0 (mergeKeyboards g)))
    with (recordedInput g).
  change (ActList g1) with (ActList g).
  change (history g1) with (history g ++ [ObsRoundTick])%list.
  change (player1 g1) with (player1 g).
  eexists. rewrite <- app_assoc. cbn [app].
  repeat split; try reflexivity.
  intros y. destruct touch; cbn; intuition discriminate.
Qed.

Lemma round_recordsOne (GHW : Z) (touch : bool) (px : Z) (g : Game) :
  isComputer (player1 g) && isComputer (player2 g) = false ->
  recordsOne touch g (round GHW touch px g).
Proof.
  intros H. destruct (round_records GHW touch px g H)
    as (rest & Eh & _ & Er & El & _).
  eexists _, rest. repeat split; try eassumption; try reflexivity.
  - subst rest. destruct touch; cbn in H0; intuition (subst; discriminate).
  - subst rest. destruct touch; cbn in H0; intuition (subst; discriminate).
Qed.

Lemma runState_recordsOne (GHW : Z) (t : Tick) (g : Game) :
  state g = Round ->
  isComputer (player1 g) && isComputer (player2 g) = false ->
  recordsOne (isBallTouchingGround t) g (runState GHW t g).
Proof.
  intros Hst H. unfold runState. rewrite Hst.
  now apply round_recordsOne.
Qed.

(** C6. In every reachable state of the controller that is in the round
    state, a game loop either does not run the state at all (pause, or a
    frame skipped by the slow motion) and leaves the log alone, or it
    enters [round()] once and appends exactly one input, that of player 2
    when player 1 is the computer and that of player 1 otherwise; outside
    pause and slow motion it always does the latter.  Hence every log that
    is flushed is as long as the number of round ticks since the log was
    last cleared. *)
Theorem C6_one_record_per_round_tick :
  forall GHW w es,
    let g := run GHW (newGame w) es in
    (forall t, state g = Round ->
       let g' := gameLoop GHW t g in
       (history g' = history g /\ ActList g' = ActList g)
       \/ recordsOne (isBallTouchingGround t) g g')
    /\ (forall t, state g = Round -> paused g = false ->
          slowMotionFramesLeft g <= 0 ->
          recordsOne (isBallTouchingGround t) g (gameLoop GHW t g))
    /\ (forall h1 h2 log shown,
          history g = (h1 ++ ObsFlush log shown :: h2)%list ->
          List.length log = roundTicksSinceClear h1).
Proof.
  intros GHW w es g.
  pose proof (Inv_reachable GHW w es) as HI. fold g in HI. clearbody g.
  assert (Hhuman : state g = Round ->
                   isComputer (player1 g) && isComputer (player2 g) = false).
  { intros Hst. apply (inv_human _ HI). now rewrite Hst. }
  repeat split.
  - intros t Hst g'. specialize (Hhuman Hst). subst g'. unfold gameLoop.
    destruct (paused g); [now left|]. cbv zeta.
    repeat match goal with
           | |- context [if ?b then _ else _] => destruct b
           end.
    + now left.
    + right. now apply (runState_recordsOne GHW t
        (set_slowMotionNumOfSkippedFrames _ (set_slowMotionFramesLeft _
           (set_slowMotionNumOfSkippedFrames _
              (set_keyboard1 _ (set_keyboard0 _ g)))))).
    + right. now apply (runState_recordsOne GHW t
        (set_keyboard1 _ (set_keyboard0 _ g))).
  - intros t Hst Hp Hslow. specialize (Hhuman Hst). unfold gameLoop.
    rewrite Hp. cbv zeta.
    change (slowMotionFramesLeft (set_keyboard1 ?a (set_keyboard0 ?b g)))
      with (slowMotionFramesLeft g).
    destruct (slowMotionFramesLeft g >? 0) eqn:E; [lia|].
    now apply (runState_recordsOne GHW t
                 (set_keyboard1 _ (set_keyboard0 _ g))).
  - intros h1 h2 log shown E.
    now destruct (inv_flushes _ HI _ _ _ _ E) as (Hlen & _).
Qed.

Lemma C6_one_record_per_round_tick_witness :
  recordsOne (isBallTouchingGround (mkTick leftKeys0 idleKeys1 true 100))
    (run 216 (newGame 15) opening)
    (gameLoop 216 (mkTick leftKeys0 idleKeys1 true 100)
       (run 216 (newGame 15) opening)).
Proof.
  apply (proj1 (proj2 (C6_one_record_per_round_tick 216 15 opening))
           (mkTick leftKeys0 idleKeys1 true 100)).
  - vm_compute. reflexivity.
  - vm_compute. reflexivity.
  - vm_compute. discriminate.
Defined.

(** *** Scoring *)

Lemma afterEngine_scoring (GHW : Z) (px : Z) (pressed : bool) (g : Game) :
  isScoringTouch true g = true ->
  let g' := afterEngine GHW true px pressed g in
  let ended := if px <? GHW then snd (scores g) >=? winningScore g
               else fst (scores g) >=? winningScore g in
  scores g' = scores g
  /\ roundEnded g' = true
  /\ isPlayer2Serve g' = (px <? GHW)
  /\ gameEnded g' = ended
  /\ (ended = true ->
      isWinner (player1 g') = negb (px <? GHW)
      /\ isWinner (player2 g') = (px <? GHW)
      /\ playerGameEnded (player1 g') = true
      /\ playerGameEnded (player2 g') = true).
Proof.
  destruct_game g. unfold isScoringTouch. cbn.
  destruct isPracticeMode0, roundEnded0, gameEnded0; try discriminate.
  intros _. unfold_controller. cbn.
  destruct (px <? GHW); cbn; split_ifs; repeat split; auto;
    intros; discriminate.
Qed.

Lemma round_scoring (GHW : Z) (px : Z) (g : Game) :
  leavesRoundAtOnce g = false ->
  isScoringTouch true g = true ->
  let g' := round GHW true px g in
  let ended := if px <? GHW then snd (scores g) >=? winningScore g
               else fst (scores g) >=? winningScore g in
  scores g' = scores g
  /\ roundEnded g' = true
  /\ isPlayer2Serve g' = (px <? GHW)
  /\ gameEnded g' = ended
  /\ (ended = true ->
      isWinner (player1 g') = negb (px <? GHW)
      /\ isWinner (player2 g') = (px <? GHW)
      /\ playerGameEnded (player1 g') = true
      /\ playerGameEnded (player2 g') = true).
Proof.
  intros Hleave Htouch. cbv zeta. rewrite round_unfold by exact Hleave.
  set (g2 := recordAndFlush true (note ObsRoundTick g)).
  destruct (recordAndFlush_frame true (note ObsRoundTick g))
    as (_ & Fs & Fw & Fe & Fr & Fp & _).
  fold g2 in Fs, Fw, Fe, Fr, Fp.
  change (scores (note ObsRoundTick g)) with (scores g) in Fs.
  change (winningScore (note ObsRoundTick g)) with (winningScore g) in Fw.
  change (gameEnded (note ObsRoundTick g)) with (gameEnded g) in Fe.
  change (roundEnded (note ObsRoundTick g)) with (roundEnded g) in Fr.
  change (isPracticeMode (note ObsRoundTick g)) with (isPracticeMode g) in Fp.
  assert (Htouch2 : isScoringTouch true g2 = true).
  { unfold isScoringTouch in *. now rewrite Fe, Fr, Fp. }
  pose proof (afterEngine_scoring GHW px (anyPowerHit g) g2 Htouch2) as H.
  cbv zeta in H. rewrite Fs, Fw in H. exact H.
Qed.

(** C7, as stated, fails: in the first round of a game the ball touches the
    ground left of the centre (100 < 216), player 2 is marked as the next
    server, but player 2's score stays what it was. *)
Lemma C7_counterexample :
  let g := run 216 (newGame 15) opening in
  let g' := gameLoop 216 (mkTick leftKeys0 idleKeys1 true 100) g in
  state g = Round
  /\ isScoringTouch true g = true
  /\ 100 < 216
  /\ isPlayer2Serve g' = true
  /\ scores g = (0, 0) /\ scores g' = (0, 0)
  /\ snd (scores g') <> snd (scores g) + 1.
Proof. vm_compute. repeat split; discriminate. Qed.

(** C7, amended. At a scoring ground touch (no practice mode, round and
    game not yet ended) the scores are left as they were; player 2 is
    marked as the next server when the punch effect is strictly left of the
    centre, and player 1 when it is at the centre or right of it. *)
Theorem C7_scoring_boundary :
  forall GHW px g,
    leavesRoundAtOnce g = false ->
    isScoringTouch true g = true ->
    let g' := round GHW true px g in
    scores g' = scores g
    /\ roundEnded g' = true
    /\ (px < GHW -> isPlayer2Serve g' = true)
    /\ (px = GHW -> isPlayer2Serve g' = false)
    /\ (px > GHW -> isPlayer2Serve g' = false).
Proof.
  intros GHW px g Hleave Htouch.
  destruct (round_scoring GHW px g Hleave Htouch) as (Hs & Hr & Hp & _).
  cbv zeta. rewrite Hs, Hr, Hp. repeat split; intros; lia.
Qed.

Lemma C7_scoring_boundary_witness :
  scores (round 216 true 100 (run 216 (newGame 15) opening))
  = scores (run 216 (newGame 15) opening)
  /\ roundEnded (round 216 true 100 (run 216 (newGame 15) opening)) = true
  /\ isPlayer2Serve (round 216 true 100 (run 216 (newGame 15) opening))
     = true.
Proof.
  assert (H1 : leavesRoundAtOnce (run 216 (newGame 15) opening) = false)
    by (vm_compute; reflexivity).
  assert (H2 : isScoringTouch true (run 216 (newGame 15) opening) = true)
    by (vm_compute; reflexivity).
  destruct (C7_scoring_boundary 216 100 (run 216 (newGame 15) opening)
              H1 H2) as (Hs & Hr & Hp & _).
  split; [exact Hs|]. split; [exact Hr|]. apply Hp. reflexivity.
Defined.

(** *** Merging the keyboards *)

Lemma mergeInto_merged (k0 k1 : PikaKeyboard) :
  (powerHit (input k0) = 0 \/ powerHit (input k0) = 1) ->
  (powerHit (input k1) = 0 \/ powerHit (input k1) = 1) ->
  mergeInto k0 k1 = mergedInput k0 k1.
Proof.
  destruct k0 as [[x0 y0 h0] ? ? ?], k1 as [[x1 y1 h1] ? ? ?]. cbn.
  intros [-> | ->] [-> | ->]; reflexivity.
Qed.

Lemma recordedInput_merged (g : Game) :
  xorb (isComputer (player1 g)) (isComputer (player2 g)) = true ->
  (powerHit (input (keyboard0 g)) = 0 \/ powerHit (input (keyboard0 g)) = 1) ->
  (powerHit (input (keyboard1 g)) = 0 \/ powerHit (input (keyboard1 g)) = 1) ->
  recordedInput g = mergedInput (keyboard0 g) (keyboard1 g).
Proof.
  destruct_game g. cbn.
  destruct c1, c2; try discriminate; intros _ H0 H1;
    now apply mergeInto_merged.
Qed.

(** C10. When exactly one player is the computer, [round()] appends to
    [ActList] the merge of the two keyboards, and that merge is what the
    human side's keyboard holds when the keyboards are handed to the
    engine: each direction is keyboard 0's when non-zero and keyboard 1's
    otherwise, and the power hit is 1 when it is 1 on either keyboard.  On
    a ground touch the log that is encoded and flushed ends with that
    merge. *)
Theorem C10_human_input_is_merge :
  forall GHW touch px g,
    xorb (isComputer (player1 g)) (isComputer (player2 g)) = true ->
    (powerHit (input (keyboard0 g)) = 0
     \/ powerHit (input (keyboard0 g)) = 1) ->
    (powerHit (input (keyboard1 g)) = 0
     \/ powerHit (input (keyboard1 g)) = 1) ->
    let g' := round GHW touch px g in
    let merged := mergedInput (keyboard0 g) (keyboard1 g) in
    let log := (ActList g ++ [merged])%list in
    ActList g' = (if touch then [] else log)
    /\ history g'
       = (history g
          ++ ObsRoundTick :: ObsPush merged
             :: (if touch
                 then [ObsFlush log
                         (serveCodeShown log (isComputer (player1 g)));
                       ObsClear]
                 else []))%list
    /\ (if isComputer (player1 g)
        then input (keyboard1 g') else input (keyboard0 g')) = merged.
Proof.
  intros GHW touch px g Hxor H0 H1.
  assert (Hhuman : isComputer (player1 g) && isComputer (player2 g) = false)
    by (destruct (isComputer (player1 g)), (isComputer (player2 g));
        auto; discriminate).
  destruct (round_records GHW touch px g Hhuman)
    as (rest & Eh & _ & Er & El & Ex).
  cbv zeta. rewrite Ex in *. rewrite recordedInput_merged in * by assumption.
  split; [exact El|]. split; [|reflexivity].
  rewrite Eh, Er. reflexivity.
Qed.

Lemma C10_human_input_is_merge_witness :
  ActList (round 216 false 0
             (readKeyboards mixedTick (run 216 (newGame 15) opening)))
  = [mkInput (-1) 1 1]
  /\ input (keyboard0 (readKeyboards mixedTick
                         (run 216 (newGame 15) opening))) = mkInput 0 1 0
  /\ input (keyboard1 (readKeyboards mixedTick
                         (run 216 (newGame 15) opening))) = mkInput (-1) 0 1.
Proof.
  assert (H1 : xorb (isComputer (player1 (readKeyboards mixedTick
                                            (run 216 (newGame 15) opening))))
                 (isComputer (player2 (readKeyboards mixedTick
                                         (run 216 (newGame 15) opening))))
               = true)
    by (vm_compute; reflexivity).
  assert (H2 : powerHit (input (keyboard0 (readKeyboards mixedTick
                                             (run 216 (newGame 15) opening))))
               = 0
               \/ powerHit (input (keyboard0 (readKeyboards mixedTick
                                                (run 216 (newGame 15)
                                                   opening)))) = 1)
    by (left; vm_compute; reflexivity).
  assert (H3 : powerHit (input (keyboard1 (readKeyboards mixedTick
                                             (run 216 (newGame 15) opening))))
               = 0
               \/ powerHit (input (keyboard1 (readKeyboards mixedTick
                                                (run 216 (newGame 15)
                                                   opening)))) = 1)
    by (right; vm_compute; reflexivity).
  assert (Hc : (ActList (readKeyboards mixedTick
                           (run 216 (newGame 15) opening))
                ++ [mergedInput
                      (keyboard0 (readKeyboards mixedTick
                                    (run 216 (newGame 15) opening)))
                      (keyboard1 (readKeyboards mixedTick
                                    (run 216 (newGame 15) opening)))])%list
               = [mkInput (-1) 1 1])
    by (vm_compute; reflexivity).
  split; [|split; vm_compute; reflexivity].
  exact (eq_trans
           (proj1 (C10_human_input_is_merge 216 false 0
                     (readKeyboards mixedTick (run 216 (newGame 15) opening))
                     H1 H2 H3))
           Hc).
Defined.

(** ** Further properties of the encoder *)

Lemma strictEq_eq (a b : option string) : strictEq a b = true <-> a = b.
Proof.
  destruct a as [x|], b as [y|]; simpl; split; try congruence.
  - intros H. apply String.eqb_eq in H. congruence.
  - intros [= ->]. apply String.eqb_refl.
Qed.

Lemma consRun_head (a : option string) (n : nat)
  (runs : list (option string * nat)) :
  exists m rest, consRun a n runs = (a, m) :: rest /\ (n <= m)%nat.
Proof.
  destruct runs as [|[b k] rest]; simpl.
  - exists n, []. split; [reflexivity | lia].
  - destruct (strictEq a b) eqn:E.
    + apply strictEq_eq in E as ->. exists (n + k)%nat, rest.
      split; [reflexivity | lia].
    + exists n, ((b, k) :: rest). split; [reflexivity | lia].
Qed.

Lemma consRun_merge (a : option string) (n : nat)
  (runs : list (option string * nat)) :
  consRun a n (consRun a 1 runs) = consRun a (S n) runs.
Proof.
  destruct runs as [|[b k] rest]; simpl.
  - rewrite strictEq_refl. now rewrite Nat.add_1_r.
  - destruct (strictEq a b) eqn:E; simpl.
    + rewrite E. f_equal. f_equal. lia.
    + rewrite strictEq_refl. now rewrite Nat.add_1_r.
Qed.

Lemma consRun_fresh (a b : option string) (n : nat)
  (runs : list (option string * nat)) :
  strictEq b a = false ->
  printRuns (consRun a n (consRun b 1 runs))
  = plusCount a n ++ printRuns (consRun b 1 runs).
Proof.
  intros E. destruct (consRun_head b 1 runs) as (m & rest & -> & _).
  simpl. destruct (strictEq a b) eqn:E'; [|reflexivity].
  apply strictEq_eq in E' as ->. now rewrite strictEq_refl in E.
Qed.

Lemma concatLoop_maximalRuns (arr : list (option string)) :
  forall (result : string) (current : option string) (count : nat),
    concatLoop arr result current count
    = result ++ printRuns (consRun current count (maximalRuns arr)).
Proof.
  induction arr as [|a arr IH]; intros result current count.
  - simpl. now rewrite append_empty_r.
  - cbn [concatLoop maximalRuns]. destruct (strictEq a current) eqn:E.
    + apply strictEq_eq in E as ->. rewrite IH. now rewrite consRun_merge.
    + rewrite IH, consRun_fresh by exact E. now rewrite append_assoc.
Qed.

Lemma expandRuns_consRun (a : option string) (n : nat)
  (runs : list (option string * nat)) :
  expandRuns (consRun a n runs) = (repeat a n ++ expandRuns runs)%list.
Proof.
  destruct runs as [|[b k] rest]; simpl; [reflexivity|].
  destruct (strictEq a b) eqn:E; simpl; [|reflexivity].
  apply strictEq_eq in E as ->. now rewrite repeat_app, <- app_assoc.
Qed.

Lemma runsMaximal_consRun (a : option string)
  (runs : list (option string * nat)) :
  runsMaximal runs -> runsMaximal (consRun a 1 runs).
Proof.
  destruct runs as [|[b k] rest]; simpl.
  - intros _. repeat split; try lia.
  - intros (Hk & Hne & Hrest). destruct (strictEq a b) eqn:E; simpl.
    + repeat split; auto; try lia.
    + repeat split; auto.
      intros ->. now rewrite strictEq_refl in E.
Qed.

Lemma concatListAsString_maximalRuns (arr : list (option string)) :
  concatListAsString arr = printRuns (maximalRuns arr)
  /\ expandRuns (maximalRuns arr) = arr
  /\ runsMaximal (maximalRuns arr).
Proof.
  repeat split.
  - destruct arr as [|a arr]; [reflexivity|].
    cbn [concatListAsString maximalRuns].
    now rewrite concatLoop_maximalRuns.
  - induction arr as [|a arr IH]; [reflexivity|].
    cbn [maximalRuns]. rewrite expandRuns_consRun, IH. reflexivity.
  - induction arr as [|a arr IH]; [exact I|].
    cbn [maximalRuns]. now apply runsMaximal_consRun.
Qed.

(** X1. [concatListAsString] is run-length encoding: its result is the text
    of the maximal runs of the array, every run is at least 1 long,
    neighbouring runs differ, and the runs expand back to the array. *)
Theorem concatListAsString_is_run_length (arr : list (option string)) :
  concatListAsString arr = printRuns (maximalRuns arr)
  /\ expandRuns (maximalRuns arr) = arr
  /\ runsMaximal (maximalRuns arr).
Proof.
  destruct (concatListAsString_maximalRuns arr) as (H1 & H2 & H3).
  split; [exact H1|]. split; [exact H2 | exact H3].
Qed.


(** *** The serve code determines the log *)

Lemma span_unique (p : ascii -> bool) (a : string) :
  forall a' b b',
    allChars p a = true -> allChars p a' = true ->
    headFails p b = true -> headFails p b' = true ->
    a ++ b = a' ++ b' -> a = a' /\ b = b'.
Proof.
  induction a as [|c a IH]; intros a' b b' Ha Ha' Hb Hb' E.
  - destruct a' as [|c' a']; [now split|].
    simpl in E. subst b. simpl in Ha', Hb.
    apply andb_true_iff in Ha' as [Hc _]. now rewrite Hc in Hb.
  - destruct a' as [|c' a'].
    + simpl in E. subst b'. simpl in Ha, Hb'.
      apply andb_true_iff in Ha as [Hc _]. now rewrite Hc in Hb'.
    + simpl in E. injection E as -> E. simpl in Ha, Ha'.
      apply andb_true_iff in Ha as [_ Ha].
      apply andb_true_iff in Ha' as [_ Ha'].
      destruct (IH a' b b' Ha Ha' Hb Hb' E) as [-> ->]. now split.
Qed.

Lemma isDigit_not_letter (c : ascii) : isDigit c = true -> isLetter c = false.
Proof.
  destruct c as [[] [] [] [] [] [] [] []]; try reflexivity; discriminate.
Qed.

Lemma tokens1_shape (t : string) :
  In t (tokens 1) ->
  exists letters,
    t = String "-" (letters ++ "/") /\ allChars isLetter letters = true.
Proof.
  intros H. exists (butLast (slice 1 t)). cbn in H.
  repeat (destruct H as [<-|H]; [split; reflexivity|]). destruct H.
Qed.

Lemma tokens2_shape (t : string) :
  In t (tokens 2) ->
  exists letters,
    t = String "-" (String "/" letters) /\ allChars isLetter letters = true.
Proof.
  intros H. exists (slice 2 t). cbn in H.
  repeat (destruct H as [<-|H]; [split; reflexivity|]). destruct H.
Qed.

Lemma digits_head (d s : string) :
  d <> "" -> allDigits d = true -> headFails isLetter (d ++ s) = true.
Proof.
  destruct d as [|c d]; [congruence|]. intros _ H. simpl in *.
  apply andb_true_iff in H as [Hc _]. now rewrite isDigit_not_letter.
Qed.

(** Two runs of one side that start equal texts have the same token, and
    what follows the token is equal too. *)
Lemma run_token_unique (p : Z) (t t' d d' s s' : string) :
  p = 1 \/ p = 2 ->
  In t (tokens p) -> In t' (tokens p) ->
  d <> "" -> allDigits d = true -> d' <> "" -> allDigits d' = true ->
  t ++ d ++ s = t' ++ d' ++ s' -> t = t' /\ d ++ s = d' ++ s'.
Proof.
  intros [-> | ->] Ht Ht' Hd Hdd Hd' Hdd' E.
  - destruct (tokens1_shape t Ht) as (l & -> & Hl).
    destruct (tokens1_shape t' Ht') as (l' & -> & Hl').
    simpl in E. injection E as E. rewrite !append_assoc in E.
    apply (span_unique isLetter) in E as [-> E]; auto.
    simpl in E. injection E as E. now split.
  - destruct (tokens2_shape t Ht) as (l & -> & Hl).
    destruct (tokens2_shape t' Ht') as (l' & -> & Hl').
    simpl in E. injection E as E.
    apply (span_unique isLetter) in E as [-> E]; auto using digits_head.
Qed.

Lemma parseNumber_numberToString (n : nat) :
  parseNumber (numberToString n) = Some n.
Proof.
  unfold parseNumber, numberToString.
  pose proof (Unsigned.of_to n) as Hn.
  destruct (Nat.to_uint n) eqn:En;
    try (rewrite NilZero.usu by discriminate; simpl; now rewrite Hn).
  simpl. f_equal. exact Hn.
Qed.

Lemma numberToString_injective (n m : nat) :
  numberToString n = numberToString m -> n = m.
Proof.
  intros E. pose proof (parseNumber_numberToString n) as H.
  rewrite E, parseNumber_numberToString in H. congruence.
Qed.

(** Runs whose values are tokens of side [p]. *)
Lemma printRuns_head (p : Z) (runs : list (option string * nat)) :
  Forall (fun r => exists t, fst r = Some t /\ In t (tokens p)) runs ->
  headFails isDigit (printRuns runs) = true
  /\ (runs <> [] -> exists rest, printRuns runs = String "-" rest
                                  /\ rest <> "").
Proof.
  intros H. destruct H as [|[a n] runs (t & Ha & Ht) _]; [split; auto|].
  - congruence.
  - simpl in Ha. subst a. destruct (tokens_shape _ _ Ht) as (x & -> & _).
    cbn [printRuns plusCount append]. split; [reflexivity|].
    intros _. eexists. split; [reflexivity|].
    rewrite append_assoc. intros E.
    destruct x; simpl in E; try discriminate E.
    destruct (numberToString n) as [|c r] eqn:En;
      [now apply numberToString_nonempty in En | discriminate E].
Qed.

Lemma printRuns_injective (p : Z) (runs : list (option string * nat)) :
  p = 1 \/ p = 2 ->
  forall runs',
    Forall (fun r => exists t, fst r = Some t /\ In t (tokens p)) runs ->
    Forall (fun r => exists t, fst r = Some t /\ In t (tokens p)) runs' ->
    printRuns runs = printRuns runs' -> runs = runs'.
Proof.
  intros Hp. induction runs as [|[a n] runs IH]; intros runs' H H' E.
  - destruct runs' as [|r' runs']; [reflexivity|].
    destruct (proj2 (printRuns_head p _ H')) as (x & Ex & _); [discriminate|].
    rewrite Ex in E. discriminate E.
  - destruct runs' as [|[a' n'] runs'].
    + destruct (proj2 (printRuns_head p _ H)) as (x & Ex & _); [discriminate|].
      rewrite Ex in E. discriminate E.
    + inversion H as [|? ? (t & Ha & Ht) Hrest]; subst.
      inversion H' as [|? ? (t' & Ha' & Ht') Hrest']; subst.
      simpl in Ha, Ha'. subst a a'.
      cbn [printRuns plusCount] in E. rewrite !append_assoc in E.
      apply (run_token_unique p) in E as [-> E];
        auto using numberToString_nonempty, numberToString_digits.
      apply (span_unique isDigit) in E as [En E];
        try (rewrite <- allDigits_allChars; apply numberToString_digits);
        try (now apply (printRuns_head p)).
      apply numberToString_injective in En as ->.
      f_equal. now apply IH.
Qed.

Lemma maximalRuns_Forall (P : option string -> Prop)
  (arr : list (option string)) :
  Forall P arr -> Forall (fun r => P (fst r)) (maximalRuns arr).
Proof.
  induction 1 as [|a arr Ha _ IH]; [constructor|].
  cbn [maximalRuns]. destruct (maximalRuns arr) as [|[b k] rest]; simpl.
  - constructor; auto.
  - destruct (strictEq a b); [|constructor; auto].
    inversion IH; subst. constructor; auto.
Qed.

Lemma encodeActList_tokens (p : Z) (log : list PikaUserInput) :
  Forall validInput log ->
  Forall (fun a => exists t, a = Some t /\ In t (tokens p))
    (encodeActList log p).
Proof.
  intros H. unfold encodeActList. apply Forall_forall. intros a Ha.
  apply in_map_iff in Ha as (v & <- & Hv).
  rewrite Forall_forall in H. apply H, validInput_In in Hv.
  destruct (encodeUserInput_defined v p Hv) as [tv Htv].
  exists tv. eauto using encodeUserInput_token.
Qed.

Lemma encodeActList_injective (p : Z) (l1 : list PikaUserInput) :
  forall l2,
    Forall validInput l1 -> Forall validInput l2 ->
    encodeActList l1 p = encodeActList l2 p -> l1 = l2.
Proof.
  induction l1 as [|u l1 IH]; intros [|v l2] H1 H2 E; try discriminate E.
  - reflexivity.
  - inversion H1; inversion H2; subst. simpl in E. injection E as Eu E.
    f_equal; [|now apply IH].
    apply (encodeUserInput_injective u v p); auto; now apply validInput_In.
Qed.

Lemma concatListAsString_injective (p : Z) (arr1 arr2 : list (option string)) :
  p = 1 \/ p = 2 ->
  Forall (fun a => exists t, a = Some t /\ In t (tokens p)) arr1 ->
  Forall (fun a => exists t, a = Some t /\ In t (tokens p)) arr2 ->
  concatListAsString arr1 = concatListAsString arr2 -> arr1 = arr2.
Proof.
  intros Hp H1 H2 E.
  destruct (concatListAsString_maximalRuns arr1) as (E1 & X1 & _).
  destruct (concatListAsString_maximalRuns arr2) as (E2 & X2 & _).
  rewrite E1, E2 in E.
  apply (printRuns_injective p) in E; auto;
    try (now apply (maximalRuns_Forall
                      (fun a => exists t, a = Some t /\ In t (tokens p)))).
  rewrite <- X1, <- X2, E. reflexivity.
Qed.

(** X2. The serve code determines the log: two logs of valid inputs that
    one side encodes to the same string are the same log. *)
Theorem encode_injective :
  forall p l1 l2,
    p = 1 \/ p = 2 ->
    Forall validInput l1 -> Forall validInput l2 ->
    concatListAsString (encodeActList l1 p)
    = concatListAsString (encodeActList l2 p) ->
    l1 = l2.
Proof.
  intros p l1 l2 Hp H1 H2 E.
  apply (encodeActList_injective p); auto.
  apply (concatListAsString_injective p); auto.
  - now apply encodeActList_tokens.
  - now apply encodeActList_tokens.
Qed.

Lemma encode_injective_witness :
  [mkInput (-1) 0 0; mkInput 0 1 1] = [mkInput (-1) 0 0; mkInput 0 1 1].
Proof.
  apply (encode_injective 1 [mkInput (-1) 0 0; mkInput 0 1 1]
           [mkInput (-1) 0 0; mkInput 0 1 1]).
  - now left.
  - repeat constructor; cbn; lia.
  - repeat constructor; cbn; lia.
  - reflexivity.
Defined.

Lemma encoded_text_shape (p : Z) (log : list PikaUserInput) :
  Forall validInput log ->
  (log = [] /\ concatListAsString (encodeActList log p) = "")
  \/ (log <> []
      /\ exists rest,
           concatListAsString (encodeActList log p) = String "-" rest
           /\ rest <> "").
Proof.
  intros H. destruct log as [|u log]; [now left|]. right.
  split; [discriminate|].
  destruct (concatListAsString_maximalRuns (encodeActList (u :: log) p))
    as (-> & _ & _).
  apply (printRuns_head p).
  - apply (maximalRuns_Forall
             (fun a => exists t, a = Some t /\ In t (tokens p))).
    now apply encodeActList_tokens.
  - cbn [encodeActList map maximalRuns].
    destruct (consRun_head (encodeUserInput u p) 1
                (maximalRuns (map (fun x => encodeUserInput x p) log)))
      as (m & rest & -> & _).
    discriminate.
Qed.

(** X3. The text the controller shows determines the log as well: dropping
    the first character loses nothing, whichever side is encoded. *)
Theorem serveCodeShown_injective :
  forall b l1 l2,
    Forall validInput l1 -> Forall validInput l2 ->
    serveCodeShown l1 b = serveCodeShown l2 b -> l1 = l2.
Proof.
  intros b l1 l2 H1 H2 E.
  set (p := if b then 2 else 1).
  assert (Hp : p = 1 \/ p = 2) by (unfold p; destruct b; auto).
  assert (Hs : forall l, serveCodeShown l b
                         = slice 1 (concatListAsString (encodeActList l p))).
  { intros l. unfold serveCodeShown, p. now destruct b. }
  rewrite !Hs in E. apply (encodeActList_injective p); auto.
  apply (concatListAsString_injective p); auto using encodeActList_tokens.
  destruct (encoded_text_shape p l1 H1) as [[_ T1] | (_ & r1 & T1 & N1)],
    (encoded_text_shape p l2 H2) as [[_ T2] | (_ & r2 & T2 & N2)];
    rewrite T1, T2 in *; cbn [slice] in E; congruence.
Qed.

Lemma serveCodeShown_injective_witness :
  [mkInput 1 0 0] = [mkInput 1 0 0].
Proof.
  apply (serveCodeShown_injective true [mkInput 1 0 0] [mkInput 1 0 0]).
  - repeat constructor; cbn; lia.
  - repeat constructor; cbn; lia.
  - reflexivity.
Defined.

(** X4. Only the empty array is encoded as the empty string. *)
Theorem concatListAsString_empty (arr : list (option string)) :
  concatListAsString arr = "" <-> arr = [].
Proof.
  split; [|now intros ->].
  destruct arr as [|a arr]; [reflexivity|]. intros E. exfalso.
  cbn [concatListAsString] in E. rewrite concatLoop_maximalRuns in E.
  destruct (consRun_head a 1 (maximalRuns arr)) as (m & rest & Er & _).
  rewrite Er in E. cbn [printRuns append] in E.
  destruct a as [t|]; cbn [plusCount] in E; [|discriminate E].
  rewrite append_assoc in E.
  destruct t; cbn in E; [|discriminate E].
  destruct (numberToString m) eqn:En;
    [now apply numberToString_nonempty in En | discriminate E].
Qed.

Lemma encodeUserInput_Some_valid (u : PikaUserInput) (p : Z) (t : string) :
  encodeUserInput u p = Some t -> validInput u.
Proof.
  destruct u as [x y h]. unfold encodeUserInput, validInput. cbn.
  destruct (p =? 1);
    destruct (Z.eqb_spec h 1); destruct (Z.eqb_spec h 0);
    destruct (Z.eqb_spec x (-1)); destruct (Z.eqb_spec x 0);
    destruct (Z.eqb_spec x 1); destruct (Z.eqb_spec y (-1));
    destruct (Z.eqb_spec y 0); destruct (Z.eqb_spec y 1);
    cbn; intros E; try discriminate E; lia.
Qed.

Lemma concatLoop_undefined (k : nat) :
  forall (result : string) (count : nat),
    concatLoop (repeat None k) result None count = result ++ "NaN".
Proof. induction k as [|k IH]; intros result count; simpl; auto. Qed.

(** X5. Outside the 18 combinations [encodeUserInput] returns undefined, and
    a non-empty log of such inputs is encoded as "NaN" whatever its length:
    undefined plus a count is not a string. *)
Theorem invalid_inputs_encode_NaN :
  (forall u p, encodeUserInput u p = None <-> ~ validInput u)
  /\ (forall p log,
        log <> [] -> Forall (fun u => ~ validInput u) log ->
        concatListAsString (encodeActList log p) = "NaN").
Proof.
  assert (Hnone : forall u p, encodeUserInput u p = None <-> ~ validInput u).
  { intros u p. split.
    - intros E Hv. apply validInput_In in Hv.
      now apply (encodeUserInput_undefined u p E).
    - intros Hv. destruct (encodeUserInput u p) eqn:E; [|reflexivity].
      now apply encodeUserInput_Some_valid in E. }
  split; [exact Hnone|].
  intros p log Hne H.
  assert (E : encodeActList log p = repeat None (List.length log)).
  { clear Hne. induction H as [|u log Hu _ IH]; [reflexivity|].
    cbn [encodeActList map List.length repeat].
    apply Hnone with (p := p) in Hu. rewrite Hu. f_equal. exact IH. }
  rewrite E. destruct log as [|u log]; [congruence|].
  cbn [List.length repeat concatListAsString].
  now rewrite concatLoop_undefined.
Qed.

Lemma invalid_inputs_encode_NaN_witness :
  concatListAsString
    (encodeActList [mkInput 2 0 0; mkInput 0 0 5; mkInput 2 0 0] 1) = "NaN".
Proof.
  apply (proj2 invalid_inputs_encode_NaN 1
           [mkInput 2 0 0; mkInput 0 0 5; mkInput 2 0 0]).
  - discriminate.
  - repeat constructor; unfold validInput; cbn; lia.
Defined.

(** ** Further properties of the controller *)

Lemma lastShown_snoc (h : list Obs) (o : Obs) :
  lastShown (h ++ [o])
  = match o with
    | ObsFlush _ s => s
    | _ => lastShown h
    end.
Proof. unfold lastShown. rewrite fold_left_app. now destruct o. Qed.

Lemma recordAndFlush_output (touch : bool) (g : Game) :
  codeViewerOutput (recordAndFlush touch g)
  = if touch
    then serveCodeShown (ActList g ++ [recordedInput g])
           (isComputer (player1 g))
    else codeViewerOutput g.
Proof. destruct_game g. destruct touch, c1, c2; reflexivity. Qed.

Lemma afterEngine_running (GHW : Z) (touch : bool) (px : Z) (pressed : bool)
  (g : Game) :
  gameEnded g = false -> scores g = (0, 0) -> 0 < winningScore g ->
  let g' := afterEngine GHW touch px pressed g in
  gameEnded g' = false /\ player1 g' = player1 g /\ player2 g' = player2 g
  /\ (state g' = state g \/ state g' = AfterEndOfRound).
Proof.
  destruct_game g. cbn. intros -> -> Hw.
  match goal with
  | H : 0 < ?x |- _ => destruct x as [|w|w]; try lia
  end.
  unfold_controller. cbn. split_ifs; auto.
Qed.

Lemma Inv2_newGame (w : Z) : Inv2 w (newGame w).
Proof. constructor; cbn; auto. Qed.

Lemma Inv2_round (GHW w : Z) (touch : bool) (px : Z) (g : Game) :
  state g = Round -> Inv g -> Inv2 w g -> Inv2 w (round GHW touch px g).
Proof.
  intros Hst HI [Hw Hrun Hfresh Hshown].
  assert (Hhuman : isComputer (player1 g) && isComputer (player2 g) = false)
    by (apply (inv_human _ HI); now rewrite Hst).
  rewrite round_unfold by (unfold leavesRoundAtOnce; now rewrite Hhuman).
  set (g1 := note ObsRoundTick g).
  set (g2 := recordAndFlush touch g1).
  destruct (afterEngine_frame GHW touch px (anyPowerHit g) g2)
    as (Es & El & Eh & _ & _ & _ & _ & Ew & Eo).
  destruct (recordAndFlush_frame touch g1)
    as (Fst & Fs & Fw & Fe & _ & _ & Fp1 & Fp2 & _).
  pose proof (recordAndFlush_output touch g1) as Fo.
  pose proof (recordAndFlush_history touch g1) as Fh.
  fold g2 in Fst, Fs, Fw, Fe, Fp1, Fp2, Fo, Fh.
  constructor.
  - now rewrite Ew, Fw.
  - intros Hpos. destruct (Hrun Hpos) as (R1 & R2 & R3 & R4 & R5).
    destruct (afterEngine_running GHW touch px (anyPowerHit g) g2)
      as (A1 & A2 & A3 & _).
    + now rewrite Fe.
    + rewrite Fs. exact (inv_scores _ HI).
    + rewrite Fw. change (winningScore g1) with (winningScore g). lia.
    + rewrite A1, A2, A3, Fp1, Fp2. auto.
  - intros Hpos Hb. exfalso.
    destruct (Hrun Hpos) as (R1 & _).
    destruct (afterEngine_running GHW touch px (anyPowerHit g) g2)
      as (_ & _ & _ & [A | A]).
    + now rewrite Fe.
    + rewrite Fs. exact (inv_scores _ HI).
    + rewrite Fw. change (winningScore g1) with (winningScore g). lia.
    + rewrite A, Fst in Hb. change (state g1) with (state g) in Hb.
      rewrite Hst in Hb. discriminate Hb.
    + rewrite A in Hb. discriminate Hb.
  - rewrite Eo, Eh, Fo, Fh.
    change (ObsPush (recordedInput g1) :: ?l)
      with ([ObsPush (recordedInput g1)] ++ l)%list.
    change (history g1) with (history g ++ [ObsRoundTick])%list.
    change (codeViewerOutput g1) with (codeViewerOutput g).
    destruct touch.
    + change ([?a; ?b]) with ([a] ++ [b])%list.
      rewrite !app_assoc, !lastShown_snoc. reflexivity.
    + rewrite app_nil_r, !lastShown_snoc. exact Hshown.
Qed.

Ltac inv2_simple g :=
  let Hw := fresh "Hw" in let Hrun := fresh "Hrun" in
  let Hfresh := fresh "Hfresh" in let Hshown := fresh "Hshown" in
  intros [Hw Hrun Hfresh Hshown];
  destruct_game g; cbn -[lastShown] in *; unfold_controller; cbn;
  split_ifs; constructor; cbn -[lastShown];
  rewrite ?lastShown_snoc;
  auto; try (intros; discriminate); try (intros; congruence).

Lemma Inv2_intro (w : Z) (g : Game) :
  state g = Intro -> Inv2 w g -> Inv2 w (intro g).
Proof. intros Hst. inv2_simple g; subst; auto. Qed.

Lemma Inv2_menu (w : Z) (g : Game) :
  state g = Menu -> Inv2 w g -> Inv2 w (menu g).
Proof. intros Hst. inv2_simple g; subst; auto. Qed.

Lemma Inv2_afterMenuSelection (w : Z) (g : Game) :
  state g = AfterMenuSelection -> Inv2 w g -> Inv2 w (afterMenuSelection g).
Proof. intros Hst. inv2_simple g; subst; auto. Qed.

Lemma Inv2_beforeStartOfNewGame (w : Z) (g : Game) :
  state g = BeforeStartOfNewGame -> Inv2 w g ->
  Inv2 w (beforeStartOfNewGame g).
Proof. intros Hst. inv2_simple g; subst; auto. Qed.

Lemma Inv2_startOfNewGame (w : Z) (g : Game) :
  state g = StartOfNewGame -> Inv2 w g -> Inv2 w (startOfNewGame g).
Proof. intros Hst. inv2_simple g; subst; auto. Qed.

Lemma Inv2_afterEndOfRound (w : Z) (g : Game) :
  state g = AfterEndOfRound -> Inv2 w g -> Inv2 w (afterEndOfRound g).
Proof. intros Hst. inv2_simple g; subst; auto. Qed.

Lemma Inv2_beforeStartOfNextRound (w : Z) (g : Game) :
  state g = BeforeStartOfNextRound -> Inv2 w g ->
  Inv2 w (beforeStartOfNextRound g).
Proof. intros Hst. inv2_simple g; subst; auto. Qed.

Lemma Inv2_restart (w : Z) (g : Game) : Inv2 w g -> Inv2 w (restart g).
Proof. inv2_simple g. Qed.

Lemma Inv2_runState (GHW w : Z) (t : Tick) (g : Game) :
  Inv g -> Inv2 w g -> Inv2 w (runState GHW t g).
Proof.
  intros HI H. unfold runState. destruct (state g) eqn:Hst;
    auto using Inv2_intro, Inv2_menu, Inv2_afterMenuSelection,
      Inv2_beforeStartOfNewGame, Inv2_startOfNewGame, Inv2_round,
      Inv2_afterEndOfRound, Inv2_beforeStartOfNextRound.
Qed.

Lemma Inv2_keyboards (w : Z) (k0 k1 : PikaKeyboard) (g : Game) :
  Inv2 w g -> Inv2 w (set_keyboard1 k1 (set_keyboard0 k0 g)).
Proof. intros [? ? ? ?]. constructor; cbn; auto. Qed.

Lemma Inv2_slowMotionFramesLeft (w v : Z) (g : Game) :
  Inv2 w g -> Inv2 w (set_slowMotionFramesLeft v g).
Proof. intros [? ? ? ?]. constructor; cbn; auto. Qed.

Lemma Inv2_slowMotionNumOfSkippedFrames (w v : Z) (g : Game) :
  Inv2 w g -> Inv2 w (set_slowMotionNumOfSkippedFrames v g).
Proof. intros [? ? ? ?]. constructor; cbn; auto. Qed.

Lemma Inv2_paused (w : Z) (v : bool) (g : Game) :
  Inv2 w g -> Inv2 w (set_paused v g).
Proof. intros [? ? ? ?]. constructor; cbn; auto. Qed.

Lemma Inv2_isPracticeMode (w : Z) (v : bool) (g : Game) :
  Inv2 w g -> Inv2 w (set_isPracticeMode v g).
Proof. intros [? ? ? ?]. constructor; cbn; auto. Qed.

Lemma Inv2_gameLoop (GHW w : Z) (t : Tick) (g : Game) :
  Inv g -> Inv2 w g -> Inv2 w (gameLoop GHW t g).
Proof.
  intros HI H. unfold gameLoop. destruct (paused g); [exact H|].
  cbv zeta.
  match goal with
  | |- context [set_keyboard1 ?k1 (set_keyboard0 ?k0 g)] =>
      assert (H1 : Inv2 w (set_keyboard1 k1 (set_keyboard0 k0 g)))
        by (now apply Inv2_keyboards);
      assert (HI1 : Inv (set_keyboard1 k1 (set_keyboard0 k0 g)))
        by (apply Inv_keyboards; auto using getInput_valid);
      generalize dependent (set_keyboard1 k1 (set_keyboard0 k0 g))
  end.
  intros g1 H1 HI1.
  repeat match goal with
         | |- context [if ?b then _ else _] => destruct b
         end;
    auto using Inv2_runState, Inv2_slowMotionFramesLeft,
      Inv2_slowMotionNumOfSkippedFrames, Inv_slowMotionFramesLeft,
      Inv_slowMotionNumOfSkippedFrames.
Qed.

Lemma Inv2_step (GHW w : Z) (g : Game) (e : Event) :
  Inv g -> Inv2 w g -> Inv2 w (step GHW g e).
Proof.
  destruct e; cbn;
    auto using Inv2_gameLoop, Inv2_restart, Inv2_paused, Inv2_isPracticeMode.
Qed.

Lemma Inv2_run (GHW w : Z) (es : list Event) :
  forall g, Inv g -> Inv2 w g -> Inv2 w (run GHW g es).
Proof.
  unfold run. induction es as [|e es IH]; intros g HI H; cbn; [exact H|].
  apply IH; [apply Inv_step, HI | apply Inv2_step; assumption].
Qed.

Lemma Inv2_reachable (GHW w : Z) (es : list Event) :
  Inv2 w (run GHW (newGame w) es).
Proof. apply Inv2_run; [apply Inv_newGame | apply Inv2_newGame]. Qed.

(** X6. The scores never move: in every reachable state they are 0 : 0. *)
Theorem scores_stay_zero :
  forall GHW w es, scores (run GHW (newGame w) es) = (0, 0).
Proof.
  intros GHW w es.
  pose proof (Inv_reachable GHW w es) as HI.
  exact (inv_scores _ HI).
Qed.

(** X7. With a positive winning score the game never ends: no reachable
    state has [gameEnded] set, a winner, or a player told that the game
    ended. *)
Theorem game_never_ends :
  forall GHW w es,
    0 < w ->
    let g := run GHW (newGame w) es in
    winningScore g = w
    /\ gameEnded g = false
    /\ isWinner (player1 g) = false /\ isWinner (player2 g) = false
    /\ playerGameEnded (player1 g) = false
    /\ playerGameEnded (player2 g) = false.
Proof.
  intros GHW w es Hw g.
  pose proof (Inv2_reachable GHW w es) as H2. fold g in H2.
  split; [exact (inv2_winning _ _ H2)|].
  exact (inv2_running _ _ H2 Hw).
Qed.

Lemma game_never_ends_witness :
  winningScore (run 216 (newGame 15) threeLefts) = 15
  /\ gameEnded (run 216 (newGame 15) threeLefts) = false
  /\ isWinner (player1 (run 216 (newGame 15) threeLefts)) = false
  /\ isWinner (player2 (run 216 (newGame 15) threeLefts)) = false
  /\ playerGameEnded (player1 (run 216 (newGame 15) threeLefts)) = false
  /\ playerGameEnded (player2 (run 216 (newGame 15) threeLefts)) = false.
Proof.
  assert (H : 0 < 15) by reflexivity.
  exact (game_never_ends 216 15 threeLefts H).
Defined.

Lemma runState_enters_round (GHW : Z) (t : Tick) (g : Game) :
  state g <> Round -> state (runState GHW t g) = Round ->
  (beforePlay (state g) = true /\ ActList (runState GHW t g) = ActList g)
  \/ ActList (runState GHW t g) = [].
Proof.
  destruct_game g. cbn. unfold runState. cbn.
  match goal with s : GameState |- _ => destruct s end;
    cbn; intros Hne; try congruence;
    unfold_controller; cbn; split_ifs; cbn; intros; try discriminate; auto.
Qed.

Lemma gameLoop_enters_round (GHW : Z) (t : Tick) (g : Game) :
  state g <> Round -> state (gameLoop GHW t g) = Round ->
  (beforePlay (state g) = true /\ ActList (gameLoop GHW t g) = ActList g)
  \/ ActList (gameLoop GHW t g) = [].
Proof.
  intros Hne. unfold gameLoop. destruct (paused g); [congruence|].
  cbv zeta.
  repeat match goal with
         | |- context [if ?b then _ else _] => destruct b
         end.
  - cbn. congruence.
  - apply (runState_enters_round GHW t
             (set_slowMotionNumOfSkippedFrames _ (set_slowMotionFramesLeft _
                (set_slowMotionNumOfSkippedFrames _
                   (set_keyboard1 _ (set_keyboard0 _ g)))))).
    exact Hne.
  - apply (runState_enters_round GHW t
             (set_keyboard1 _ (set_keyboard0 _ g))).
    exact Hne.
Qed.

(** X9. With a positive winning score every round starts with an empty
    log: whenever an event takes the controller into the round state from
    another state, [ActList] is empty. *)
Theorem round_starts_with_empty_log :
  forall GHW w es e,
    0 < w ->
    let g := run GHW (newGame w) es in
    state g <> Round -> state (step GHW g e) = Round ->
    ActList (step GHW g e) = [].
Proof.
  intros GHW w es e Hw g Hne Hst.
  pose proof (Inv2_reachable GHW w es) as H2. fold g in H2. clearbody g.
  destruct e as [t| | b | b]; cbn [step] in *.
  - destruct (gameLoop_enters_round GHW t g Hne Hst) as [[Hb ->] | ->];
      [|reflexivity].
    exact (inv2_fresh _ _ H2 Hw Hb).
  - discriminate Hst.
  - now elim Hne.
  - now elim Hne.
Qed.

Lemma round_starts_with_empty_log_witness :
  ActList (step 216 (run 216 (newGame 15) (removelast opening)) idleTick) = [].
Proof.
  assert (H : 0 < 15) by reflexivity.
  assert (H1 : state (run 216 (newGame 15) (removelast opening)) <> Round)
    by (vm_compute; discriminate).
  assert (H2 : state (step 216 (run 216 (newGame 15) (removelast opening))
                        idleTick) = Round)
    by (vm_compute; reflexivity).
  exact (round_starts_with_empty_log 216 15 (removelast opening) idleTick
           H H1 H2).
Defined.

(** X10. With a positive winning score a game loop in the round state
    stays there or goes to the fade-out after the end of the round; it
    never falls back to the intro. *)
Theorem round_leaves_only_to_afterEndOfRound :
  forall GHW w es t,
    0 < w ->
    let g := run GHW (newGame w) es in
    state g = Round ->
    state (gameLoop GHW t g) = Round
    \/ state (gameLoop GHW t g) = AfterEndOfRound.
Proof.
  intros GHW w es t Hw g Hst.
  pose proof (Inv_reachable GHW w es) as HI.
  pose proof (Inv2_reachable GHW w es) as H2. fold g in HI, H2. clearbody g.
  assert (Hround : forall g1,
             state g1 = Round -> player1 g1 = player1 g ->
             player2 g1 = player2 g -> scores g1 = scores g ->
             winningScore g1 = winningScore g -> gameEnded g1 = gameEnded g ->
             state (runState GHW t g1) = Round
             \/ state (runState GHW t g1) = AfterEndOfRound).
  { intros g1 S1 P1 P2 Sc W1 E1. unfold runState. rewrite S1.
    rewrite round_unfold.
    2:{ unfold leavesRoundAtOnce. rewrite P1, P2.
        rewrite (inv_human _ HI); [reflexivity | now rewrite Hst]. }
    set (g2 := recordAndFlush _ _).
    destruct (recordAndFlush_frame (isBallTouchingGround t)
                (note ObsRoundTick g1))
      as (Fst & Fs & Fw & Fe & _).
    fold g2 in Fst, Fs, Fw, Fe.
    destruct (inv2_running _ _ H2 Hw) as (R1 & _).
    destruct (afterEngine_running GHW (isBallTouchingGround t)
                (punchEffectX t) (anyPowerHit g1) g2)
      as (_ & _ & _ & [A | A]).
    - rewrite Fe. change (gameEnded (note ObsRoundTick g1))
        with (gameEnded g1). congruence.
    - rewrite Fs. change (scores (note ObsRoundTick g1)) with (scores g1).
      rewrite Sc. exact (inv_scores _ HI).
    - rewrite Fw. change (winningScore (note ObsRoundTick g1))
        with (winningScore g1).
      rewrite W1, (inv2_winning _ _ H2). exact Hw.
    - left. rewrite A, Fst. exact S1.
    - now right. }
  unfold gameLoop. destruct (paused g); [now left|]. cbv zeta.
  repeat match goal with
         | |- context [if ?b then _ else _] => destruct b
         end.
  - now left.
  - now apply Hround.
  - now apply Hround.
Qed.

Lemma round_leaves_only_to_afterEndOfRound_witness :
  state (gameLoop 216 (mkTick leftKeys0 idleKeys1 true 100)
           (run 216 (newGame 15) opening)) = Round
  \/ state (gameLoop 216 (mkTick leftKeys0 idleKeys1 true 100)
              (run 216 (newGame 15) opening)) = AfterEndOfRound.
Proof.
  assert (H : 0 < 15) by reflexivity.
  assert (H1 : state (run 216 (newGame 15) opening) = Round)
    by (vm_compute; reflexivity).
  exact (round_leaves_only_to_afterEndOfRound 216 15 opening
           (mkTick leftKeys0 idleKeys1 true 100) H H1).
Defined.

Lemma afterEngine_practice (GHW : Z) (touch : bool) (px : Z) (pressed : bool)
  (g : Game) :
  isPracticeMode g = true -> gameEnded g = false ->
  let g' := afterEngine GHW touch px pressed g in
  gameEnded g' = false /\ roundEnded g' = roundEnded g
  /\ isPlayer2Serve g' = isPlayer2Serve g
  /\ slowMotionFramesLeft g' = slowMotionFramesLeft g
  /\ frameCounter g' = frameCounter g
  /\ (roundEnded g = false -> state g' = state g).
Proof.
  destruct_game g. cbn. intros -> ->. unfold_controller. cbn.
  rewrite !andb_false_r. cbn. split_ifs; repeat split; auto;
    intros; discriminate.
Qed.

(** X11. In practice mode a ground touch ends nothing: [round()] leaves the
    scores, the round and game flags, the next server, the slow motion and
    the frame counter as they were and stays in the round state, while the
    log is still flushed on a touch and extended otherwise. *)
Theorem practice_mode_never_ends_round :
  forall GHW touch px g,
    isPracticeMode g = true -> gameEnded g = false ->
    roundEnded g = false ->
    leavesRoundAtOnce g = false ->
    let g' := round GHW touch px g in
    state g' = state g /\ scores g' = scores g
    /\ gameEnded g' = false /\ roundEnded g' = false
    /\ isPlayer2Serve g' = isPlayer2Serve g
    /\ slowMotionFramesLeft g' = slowMotionFramesLeft g
    /\ frameCounter g' = frameCounter g
    /\ ActList g' = (if touch then [] else ActList g ++ [recordedInput g])%list.
Proof.
  intros GHW touch px g Hp He Hr Hleave. cbv zeta.
  rewrite round_unfold by exact Hleave.
  set (g1 := note ObsRoundTick g).
  set (g2 := recordAndFlush touch g1).
  destruct (recordAndFlush_frame touch g1)
    as (Fst & Fs & _ & Fe & Fr & Fp & _ & _ & Fserve & Fslow & Ff).
  fold g2 in Fst, Fs, Fe, Fr, Fp, Fserve, Fslow, Ff.
  destruct (afterEngine_frame GHW touch px (anyPowerHit g) g2)
    as (Es & El & _).
  destruct (afterEngine_practice GHW touch px (anyPowerHit g) g2)
    as (A1 & A2 & A3 & A4 & A5 & A6).
  { rewrite Fp. exact Hp. }
  { rewrite Fe. exact He. }
  destruct (mergeKeyboards_note ObsRoundTick g) as (_ & _ & Nr).
  fold g1 in Nr.
  rewrite A6 by (rewrite Fr; exact Hr).
  rewrite Es, A1, A2, A3, A4, A5, El, Fst, Fs, Fr, Fserve, Fslow, Ff.
  unfold g2. rewrite recordAndFlush_log, Nr.
  repeat split; auto.
Qed.

Lemma practice_mode_never_ends_round_witness :
  state (round 216 true 100
           (set_isPracticeMode true (run 216 (newGame 15) opening))) = Round.
Proof.
  assert (H1 : isPracticeMode
                 (set_isPracticeMode true (run 216 (newGame 15) opening))
               = true) by reflexivity.
  assert (H2 : gameEnded
                 (set_isPracticeMode true (run 216 (newGame 15) opening))
               = false) by (vm_compute; reflexivity).
  assert (H3 : roundEnded
                 (set_isPracticeMode true (run 216 (newGame 15) opening))
               = false) by (vm_compute; reflexivity).
  assert (H4 : leavesRoundAtOnce
                 (set_isPracticeMode true (run 216 (newGame 15) opening))
               = false) by (vm_compute; reflexivity).
  assert (H5 : state (set_isPracticeMode true
                        (run 216 (newGame 15) opening)) = Round)
    by (vm_compute; reflexivity).
  destruct (practice_mode_never_ends_round 216 true 100
              (set_isPracticeMode true (run 216 (newGame 15) opening))
              H1 H2 H3 H4) as (Hst & _).
  exact (eq_trans Hst H5).
Defined.

(** X12. With two human players [round()] merges nothing: both keyboards
    keep their input, and the one input it appends to [ActList] is keyboard
    0's own, that of player 1; player 2's input is not recorded, and on a
    ground touch the log that is flushed ends with player 1's input. *)
Theorem two_humans_record_player1 :
  forall GHW touch px g,
    isComputer (player1 g) = false -> isComputer (player2 g) = false ->
    let g' := round GHW touch px g in
    let log := (ActList g ++ [input (keyboard0 g)])%list in
    keyboard0 g' = keyboard0 g /\ keyboard1 g' = keyboard1 g
    /\ ActList g' = (if touch then [] else log)
    /\ history g'
       = (history g
          ++ ObsRoundTick :: ObsPush (input (keyboard0 g))
             :: (if touch
                 then [ObsFlush log (serveCodeShown log false); ObsClear]
                 else []))%list.
Proof.
  intros GHW touch px g H1 H2.
  assert (Hhuman : isComputer (player1 g) && isComputer (player2 g) = false)
    by now rewrite H1.
  assert (Hleave : leavesRoundAtOnce g = false)
    by (unfold leavesRoundAtOnce; now rewrite Hhuman).
  destruct (round_records GHW touch px g Hhuman)
    as (rest & Eh & _ & Er & El & Ex).
  clear Hhuman. cbv zeta in *.
  assert (Hm : mergeKeyboards g = g).
  { unfold mergeKeyboards. now rewrite H1, H2. }
  assert (Hx : recordedInput g = input (keyboard0 g)).
  { unfold recordedInput. now rewrite H1, Hm. }
  rewrite Ex, Hx, H1 in *.
  split; [|split; [|split; [exact El|]]].
  - rewrite round_unfold by exact Hleave.
    destruct (afterEngine_frame GHW touch px (anyPowerHit g)
                (recordAndFlush touch (note ObsRoundTick g)))
      as (_ & _ & _ & Ek0 & _).
    destruct (recordAndFlush_keyboards touch (note ObsRoundTick g))
      as [Fk0 _].
    destruct (mergeKeyboards_note ObsRoundTick g) as (N0 & _).
    now rewrite Ek0, Fk0, N0, Hm.
  - rewrite round_unfold by exact Hleave.
    destruct (afterEngine_frame GHW touch px (anyPowerHit g)
                (recordAndFlush touch (note ObsRoundTick g)))
      as (_ & _ & _ & _ & Ek1 & _).
    destruct (recordAndFlush_keyboards touch (note ObsRoundTick g))
      as [_ Fk1].
    destruct (mergeKeyboards_note ObsRoundTick g) as (_ & N1 & _).
    now rewrite Ek1, Fk1, N1, Hm.
  - rewrite Eh, Er. reflexivity.
Qed.

Lemma two_humans_record_player1_witness :
  ActList (round 216 false 0
             (readKeyboards mixedTick
                (run 216 (newGame 15) openingWithFriend)))
  = [mkInput 0 1 0]
  /\ input (keyboard1 (round 216 false 0
                         (readKeyboards mixedTick
                            (run 216 (newGame 15) openingWithFriend))))
     = mkInput (-1) 0 1.
Proof.
  assert (H1 : isComputer (player1 (readKeyboards mixedTick
                                      (run 216 (newGame 15)
                                         openingWithFriend))) = false)
    by (vm_compute; reflexivity).
  assert (H2 : isComputer (player2 (readKeyboards mixedTick
                                      (run 216 (newGame 15)
                                         openingWithFriend))) = false)
    by (vm_compute; reflexivity).
  assert (Hc : (ActList (readKeyboards mixedTick
                           (run 216 (newGame 15) openingWithFriend))
                ++ [input (keyboard0 (readKeyboards mixedTick
                                        (run 216 (newGame 15)
                                           openingWithFriend)))])%list
               = [mkInput 0 1 0])
    by (vm_compute; reflexivity).
  assert (Hk : input (keyboard1 (readKeyboards mixedTick
                                   (run 216 (newGame 15) openingWithFriend)))
               = mkInput (-1) 0 1)
    by (vm_compute; reflexivity).
  destruct (two_humans_record_player1 216 false 0
              (readKeyboards mixedTick
                 (run 216 (newGame 15) openingWithFriend)) H1 H2)
    as (_ & K1 & L & _).
  split; [exact (eq_trans L Hc)|].
  exact (eq_trans (f_equal input K1) Hk).
Defined.

Ltac destruct_inner b :=
  match b with
  | context [if ?c then _ else _] => destruct_inner c
  | andb ?x ?y => first [destruct_inner x | destruct_inner y]
  | orb ?x ?y => first [destruct_inner x | destruct_inner y]
  | negb ?x => destruct_inner x
  | _ => destruct b eqn:?
  end.

Ltac split_ifs_inner :=
  repeat (match goal with
          | |- context [if ?b then _ else _] => destruct_inner b
          end; cbn).

Lemma menu_cases (g : Game) :
  state g = Menu ->
  let g' := menu g in
  if (71 <? frameCounter g + 1) && anyPowerHit g
  then state g' = AfterMenuSelection /\ frameCounter g' = 0
       /\ isComputer (player1 g')
          = (if selectedWithWho g' =? 1 then false
             else negb (powerHit (input (keyboard0 g)) =? 1))
       /\ isComputer (player2 g')
          = (if selectedWithWho g' =? 1 then false
             else (powerHit (input (keyboard0 g)) =? 1))
       /\ (selectedWithWho g' =? 1)
          || (powerHit (input (keyboard0 g)) =? 1)
          || (powerHit (input (keyboard1 g)) =? 1) = true
  else state g' = Menu /\ player1 g' = player1 g /\ player2 g' = player2 g.
Proof.
  intros Hst. destruct_game g. cbn in Hst. subst.
  unfold menu, anyPowerHit. cbn.
  match goal with
  | |- context [if ?x =? 0 then _ else _] => destruct (x =? 0)
  end; cbn;
  match goal with
  | |- context [?x + 1 <? 71] =>
      destruct (Z.ltb_spec (x + 1) 71), (Z.leb_spec (x + 1) 71),
        (Z.ltb_spec 71 (x + 1)); try lia
  end; cbn; split_ifs_inner; repeat split; try reflexivity;
    cbn in *; congruence.
Qed.

(** X13. [menu()] leaves the menu exactly on a tick with a power hit after
    frame 71, and then never with two computer players: with "with friend"
    selected both players are human, otherwise the player whose keyboard
    hit is human and the other the computer, keyboard 0 winning when both
    hit.  As long as the menu stays, the players are left as they were. *)
Theorem menu_selects_the_human_side :
  forall g,
    state g = Menu ->
    let g' := menu g in
    (state g' = AfterMenuSelection
     <-> (71 < frameCounter g + 1 /\ anyPowerHit g = true))
    /\ (state g' = AfterMenuSelection ->
        frameCounter g' = 0
        /\ ((selectedWithWho g' = 1
             /\ isComputer (player1 g') = false
             /\ isComputer (player2 g') = false)
            \/ (selectedWithWho g' <> 1
                /\ powerHit (input (keyboard0 g)) = 1
                /\ isComputer (player1 g') = false
                /\ isComputer (player2 g') = true)
            \/ (selectedWithWho g' <> 1
                /\ powerHit (input (keyboard0 g)) <> 1
                /\ powerHit (input (keyboard1 g)) = 1
                /\ isComputer (player1 g') = true
                /\ isComputer (player2 g') = false)))
    /\ (state g' <> AfterMenuSelection ->
        state g' = Menu /\ player1 g' = player1 g /\ player2 g' = player2 g).
Proof.
  intros g Hst g'. pose proof (menu_cases g Hst) as H. fold g' in H.
  clearbody g'.
  destruct (Z.ltb_spec 71 (frameCounter g + 1)) as [Hfc | Hfc];
    destruct (anyPowerHit g) eqn:Hhit; cbn [andb] in H.
  - destruct H as (S & F & C1 & C2 & Hsel).
    split; [split; auto|]. split; [|congruence].
    intros _. split; [exact F|].
    destruct (Z.eqb_spec (selectedWithWho g') 1) as [Es | Es].
    + left. auto.
    + right. destruct (Z.eqb_spec (powerHit (input (keyboard0 g))) 1)
        as [E0 | E0].
      * left. auto.
      * right. cbn in Hsel. apply Z.eqb_eq in Hsel. auto.
  - destruct H as (S & P1 & P2).
    split; [split; [congruence | intros [_ ?]; discriminate]|].
    split; [congruence | auto].
  - destruct H as (S & P1 & P2).
    split; [split; [congruence | intros [? _]; lia]|].
    split; [congruence | auto].
  - destruct H as (S & P1 & P2).
    split; [split; [congruence | intros [? _]; lia]|].
    split; [congruence | auto].
Qed.

Lemma menu_selects_the_human_side_witness :
  state (menu (run 216 (newGame 15) [hitTick; idleTick])) = Menu.
Proof.
  assert (H : state (run 216 (newGame 15) [hitTick; idleTick]) = Menu)
    by (vm_compute; reflexivity).
  destruct (menu_selects_the_human_side
              (run 216 (newGame 15) [hitTick; idleTick]) H)
    as (_ & _ & H3).
  apply H3. vm_compute. discriminate.
Defined.

(** ** Further properties of the keyboard *)

Lemma existsb_extra (f : Key -> bool) (k : Key) (l : list Key) :
  f k = false -> existsb f (k :: l) = existsb f l.
Proof. intros H. cbn. now rewrite H. Qed.

(** X14. [getInput] always yields one of the 18 valid inputs; left wins
    over right and up over down; and an extra key that is up, or whose code
    is none of KeyD, KeyG, KeyR, KeyV, KeyF, ArrowDown, KeyZ, changes
    nothing in what [getInput] reads. *)
Theorem getInput_resolution :
  forall kb,
    validInput (input (getInput kb))
    /\ (leftPressed kb = true -> xDirection (input (getInput kb)) = -1)
    /\ (upPressed kb = true -> yDirection (input (getInput kb)) = -1)
    /\ (forall k,
          isDown k = false
          \/ existsb (String.eqb (value k)) extraCodes = false ->
          input (getInput (addExtraKey k kb)) = input (getInput kb)
          /\ powerHitKeyIsDownPrevious (getInput (addExtraKey k kb))
             = powerHitKeyIsDownPrevious (getInput kb)).
Proof.
  intros kb. split; [apply getInput_valid|].
  split; [unfold getInput; cbn; now intros ->|].
  split; [unfold getInput; cbn; now intros ->|].
  intros k Hk.
  assert (Hl : leftPressed (addExtraKey k kb) = leftPressed kb
               /\ rightPressed (addExtraKey k kb) = rightPressed kb
               /\ upPressed (addExtraKey k kb) = upPressed kb
               /\ downPressed (addExtraKey k kb) = downPressed kb
               /\ powerHitPressed (addExtraKey k kb) = powerHitPressed kb).
  { unfold leftPressed, rightPressed, upPressed, downPressed,
      powerHitPressed, addExtraKey. cbn [extraKeys keys].
    destruct Hk as [Hk | Hk].
    - rewrite !existsb_extra; auto; rewrite Hk;
        auto using andb_false_r.
    - unfold extraCodes in Hk. cbn in Hk.
      repeat (apply orb_false_iff in Hk as [? Hk]).
      rewrite !existsb_extra; auto; cbn;
        repeat match goal with
               | H : (_ =? _)%string = false |- _ => rewrite H; clear H
               end; cbn; auto using andb_false_r. }
  destruct Hl as (L & R & U & D & P).
  unfold getInput. cbn [input powerHitKeyIsDownPrevious addExtraKey].
  rewrite L, R, U, D, P. cbn. auto.
Qed.

Lemma keyStep_flags (k : KeyObject) (a : KeyAction) :
  keyIsUp k = negb (keyIsDown k) ->
  keyIsUp (keyStep k a) = negb (keyIsDown (keyStep k a))
  /\ keyValue (keyStep k a) = keyValue k.
Proof.
  intros H. destruct a as [c | c | |]; cbn;
    unfold downHandler, upHandler;
    repeat match goal with
           | |- context [if ?b then _ else _] => destruct b
           end; cbn; auto.
Qed.

Lemma keyStep_unconcerned (code : string) (k : KeyObject) (a : KeyAction) :
  keyValue k = code -> concerns code a = false ->
  keyIsDown (keyStep k a) = (match a with
                             | Unsubscribe => false
                             | _ => keyIsDown k
                             end).
Proof.
  intros <- H. destruct a as [c | c | |]; cbn in *;
    unfold downHandler, upHandler; try rewrite H;
    destruct (listening k); reflexivity.
Qed.

(** X15. A key's two flags are always opposite; events with another code
    never change it; after [unsubscribe] it reads as up whatever events
    follow, until it is subscribed again; and while its listeners are
    attached, after a keydown with its code it is down and after a keyup
    with its code it is up. *)
Theorem key_follows_its_events :
  forall code actions,
    let k := keyAfter (newKeyObject code) actions in
    keyIsUp k = negb (keyIsDown k) /\ keyValue k = code
    /\ (forall other,
          String.eqb other code = false ->
          keyIsDown (keyStep k (Keydown other)) = keyIsDown k
          /\ keyIsDown (keyStep k (Keyup other)) = keyIsDown k)
    /\ (forall events,
          forallb (fun a => match a with
                            | Keydown _ | Keyup _ => true
                            | _ => false
                            end) events = true ->
          keyIsDown (keyAfter (unsubscribeKey k) events) = false)
    /\ (listening k = true ->
        keyIsDown (keyStep k (Keydown code)) = true
        /\ keyIsDown (keyStep k (Keyup code)) = false).
Proof.
  intros code actions k.
  assert (Hk : keyIsUp k = negb (keyIsDown k) /\ keyValue k = code).
  { subst k. unfold keyAfter.
    assert (G : forall k0, keyIsUp k0 = negb (keyIsDown k0) ->
                           keyValue k0 = code ->
                           keyIsUp (fold_left keyStep actions k0)
                           = negb (keyIsDown (fold_left keyStep actions k0))
                           /\ keyValue (fold_left keyStep actions k0) = code).
    { induction actions as [|a actions IH]; intros k0 H0 V0; [now split|].
      cbn [fold_left]. destruct (keyStep_flags k0 a H0) as [H1 V1].
      apply IH; congruence. }
    now apply G. }
  destruct Hk as [Hflags Hval]. clearbody k.
  split; [exact Hflags|]. split; [exact Hval|]. split; [|split].
  - intros other Ho. cbn. unfold downHandler, upHandler.
    rewrite Hval, Ho. now destruct (listening k).
  - intros events Hev. unfold keyAfter.
    assert (G : forall k0, listening k0 = false -> keyIsDown k0 = false ->
                           keyIsDown (fold_left keyStep events k0) = false).
    { induction events as [|a events IH]; intros k0 L0 D0; [exact D0|].
      cbn [forallb] in Hev. apply andb_true_iff in Hev as [Ha Hev].
      cbn [fold_left]. destruct a; try discriminate Ha; cbn;
        rewrite L0; now apply IH. }
    now apply G.
  - intros Hl. cbn. rewrite Hl. unfold downHandler, upHandler.
    rewrite Hval, String.eqb_refl. now split.
Qed.

Lemma key_follows_its_events_witness :
  keyIsDown (keyStep (keyAfter (newKeyObject "KeyZ")
                        [Keydown "KeyZ"; Keyup "KeyZ"; Keydown "Enter"])
               (Keydown "KeyZ")) = true
  /\ keyIsDown (keyStep (keyAfter (newKeyObject "KeyZ")
                           [Keydown "KeyZ"; Keyup "KeyZ"; Keydown "Enter"])
                  (Keyup "KeyZ")) = false.
Proof.
  apply (key_follows_its_events "KeyZ"
           [Keydown "KeyZ"; Keyup "KeyZ"; Keydown "Enter"]).
  reflexivity.
Defined.

(** ** Properties of the sound effects *)

Lemma playPlayerSounds_spec (pan : Z) (s : PlayerSound)
  (l : list (SoundName * Z)) :
  fst (playPlayerSounds pan (s, l)) = mkPlayerSound false false false
  /\ snd (playPlayerSounds pan (s, l))
     = (l ++ (if pipikachu s then [(PipikachuSound, pan)] else [])
          ++ (if pika s then [(PikaSound, pan)] else [])
          ++ (if chu s then [(ChuSound, pan)] else []))%list.
Proof.
  destruct s as [[] [] []]; cbn; rewrite <- ?app_assoc, ?app_nil_r;
    split; reflexivity.
Qed.

Lemma playBallSounds_spec (pan : Z) (s : BallSound)
  (l : list (SoundName * Z)) :
  fst (playBallSounds pan (s, l)) = mkBallSound false false
  /\ snd (playBallSounds pan (s, l))
     = (l ++ (if ballPowerHit s then [(PowerHitSound, pan)] else [])
          ++ (if ballTouchesGround s
              then [(BallTouchesGroundSound, pan)] else []))%list.
Proof.
  destruct s as [[] []]; cbn; rewrite <- ?app_assoc, ?app_nil_r;
    split; reflexivity.
Qed.

(** X16. [playSoundEffect] delivers every pending sound exactly once: it
    plays as many sounds as flags were set, after everything played
    before, leaves every flag cleared, and a second call plays nothing. *)
Theorem playSoundEffect_plays_once :
  forall stereo GHW px s,
    let s' := playSoundEffect stereo GHW px s in
    player1Sound s' = mkPlayerSound false false false
    /\ player2Sound s' = mkPlayerSound false false false
    /\ ballSound s' = mkBallSound false false
    /\ (exists new, played s' = (played s ++ new)%list
                    /\ List.length new = pendingSounds s)
    /\ playSoundEffect stereo GHW px s' = s'.
Proof.
  intros stereo GHW px s s'. subst s'. unfold playSoundEffect. cbv zeta.
  destruct s as [[a1 b1 c1] [a2 b2 c2] [h t] l].
  cbn [player1Sound player2Sound ballSound played].
  repeat match goal with
         | |- context [playPlayerSounds ?p (?x, ?y)] =>
             let H1 := fresh in let H2 := fresh in
             destruct (playPlayerSounds_spec p x y) as [H1 H2];
             destruct (playPlayerSounds p (x, y)) as [? ?];
             cbn [fst snd] in H1, H2; subst
         | |- context [playBallSounds ?p (?x, ?y)] =>
             let H1 := fresh in let H2 := fresh in
             destruct (playBallSounds_spec p x y) as [H1 H2];
             destruct (playBallSounds p (x, y)) as [? ?];
             cbn [fst snd] in H1, H2; subst
         end.
  cbn [fst snd pipikachu pika chu ballPowerHit ballTouchesGround].
  repeat split.
  - eexists. rewrite <- !app_assoc. split; [reflexivity|].
    unfold pendingSounds. cbn.
    destruct a1, b1, c1, a2, b2, c2, h, t; reflexivity.
  - cbn. rewrite !app_nil_r. reflexivity.
Qed.

(** X17. Where the sounds are played: in mono every sound is centred; in
    stereo player 1's sounds come from the left, player 2's from the
    right, and the ball's from the side of the punch effect, centred when
    it is exactly at the middle of the court. *)
Theorem playSoundEffect_panning :
  forall stereo GHW px s,
    played (playSoundEffect stereo GHW px s)
    = (played s
       ++ map (fun n => (n, if stereo then -1 else 0))
            ((if pipikachu (player1Sound s) then [PipikachuSound] else [])
             ++ (if pika (player1Sound s) then [PikaSound] else [])
             ++ (if chu (player1Sound s) then [ChuSound] else []))
       ++ map (fun n => (n, if stereo then 1 else 0))
            ((if pipikachu (player2Sound s) then [PipikachuSound] else [])
             ++ (if pika (player2Sound s) then [PikaSound] else [])
             ++ (if chu (player2Sound s) then [ChuSound] else []))
       ++ map (fun n => (n, if stereo then Z.sgn (px - GHW) else 0))
            ((if ballPowerHit (ballSound s) then [PowerHitSound] else [])
             ++ (if ballTouchesGround (ballSound s)
                 then [BallTouchesGroundSound] else [])))%list.
Proof.
  intros stereo GHW px s. unfold playSoundEffect. cbv zeta.
  cbn [played].
  assert (Hpan : (if stereo
                  then if px <? GHW then -1
                       else if px >? GHW then 1 else 0
                  else 0)
                 = (if stereo then Z.sgn (px - GHW) else 0)).
  { destruct stereo; [|reflexivity].
    destruct (Z.ltb_spec px GHW); [lia|].
    destruct (Z.gtb_spec px GHW); lia. }
  rewrite Hpan. clear Hpan.
  generalize (if stereo then Z.sgn (px - GHW) else 0) as panBall.
  generalize (if stereo then 1 else 0) as pan2.
  generalize (if stereo then -1 else 0) as pan1.
  intros pan1 pan2 panBall.
  destruct s as [[a1 b1 c1] [a2 b2 c2] [h t] l].
  destruct a1, b1, c1, a2, b2, c2, h, t; cbn;
    rewrite <- ?app_assoc, ?app_nil_r; reflexivity.
Qed.

(** X18. The token table is compositional: the token of a valid input on
    side 1 is "-" letters "/" and on side 2 "-/" letters, the letters being
    U or D for the vertical direction, then L or R for the horizontal one,
    then H for the power hit. *)
Theorem tokens_are_composed_of_letters :
  forall u,
    validInput u ->
    encodeUserInput u 1 = Some ("-" ++ directionLetters u ++ "/")
    /\ encodeUserInput u 2 = Some ("-/" ++ directionLetters u).
Proof.
  intros u Hu. apply validInput_In in Hu. cbn in Hu.
  repeat (destruct Hu as [<-|Hu]; [split; reflexivity|]). destruct Hu.
Qed.

Lemma tokens_are_composed_of_letters_witness :
  encodeUserInput (mkInput 1 (-1) 1) 1 = Some "-URH/"
  /\ encodeUserInput (mkInput 1 (-1) 1) 2 = Some "-/URH".
Proof.
  apply (tokens_are_composed_of_letters (mkInput 1 (-1) 1)).
  unfold validInput. cbn. lia.
Defined.

(** *** Slow motion *)

Lemma gameLoop_skips (GHW : Z) (t : Tick) (g : Game) :
  paused g = false -> slowMotionFramesLeft g > 0 ->
  Z.rem (slowMotionNumOfSkippedFrames g + 1) 5 <> 0 ->
  gameLoop GHW t g
  = set_slowMotionNumOfSkippedFrames (slowMotionNumOfSkippedFrames g + 1)
      (readKeyboards t g).
Proof.
  intros Hp Hs Hr. unfold gameLoop. rewrite Hp. cbv zeta.
  change (slowMotionFramesLeft (set_keyboard1 ?a (set_keyboard0 ?b g)))
    with (slowMotionFramesLeft g).
  destruct (Z.gtb_spec (slowMotionFramesLeft g) 0); [|lia].
  change (slowMotionNumOfSkippedFrames
            (set_slowMotionNumOfSkippedFrames ?v ?x)) with v.
  change (slowMotionNumOfSkippedFrames
            (set_keyboard1 ?a (set_keyboard0 ?b g)))
    with (slowMotionNumOfSkippedFrames g).
  change (mathRoundDiv normalFPS slowMotionFPS) with 5.
  destruct (Z.eqb_spec (Z.rem (slowMotionNumOfSkippedFrames g + 1) 5) 0);
    [contradiction | reflexivity].
Qed.

Lemma gameLoop_runs (GHW : Z) (t : Tick) (g : Game) :
  paused g = false -> slowMotionFramesLeft g > 0 ->
  Z.rem (slowMotionNumOfSkippedFrames g + 1) 5 = 0 ->
  gameLoop GHW t g
  = runState GHW t
      (set_slowMotionNumOfSkippedFrames 0
         (set_slowMotionFramesLeft (slowMotionFramesLeft g - 1)
            (set_slowMotionNumOfSkippedFrames
               (slowMotionNumOfSkippedFrames g + 1) (readKeyboards t g)))).
Proof.
  intros Hp Hs Hr. unfold gameLoop. rewrite Hp. cbv zeta.
  change (slowMotionFramesLeft (set_keyboard1 ?a (set_keyboard0 ?b g)))
    with (slowMotionFramesLeft g).
  destruct (Z.gtb_spec (slowMotionFramesLeft g) 0); [|lia].
  change (slowMotionNumOfSkippedFrames
            (set_slowMotionNumOfSkippedFrames ?v ?x)) with v.
  change (slowMotionNumOfSkippedFrames
            (set_keyboard1 ?a (set_keyboard0 ?b g)))
    with (slowMotionNumOfSkippedFrames g).
  change (mathRoundDiv normalFPS slowMotionFPS) with 5.
  destruct (Z.eqb_spec (Z.rem (slowMotionNumOfSkippedFrames g + 1) 5) 0);
    [reflexivity | contradiction].
Qed.

(** X19. In slow motion the state runs on every fifth game loop only: from
    a skip counter of 0, four loops change nothing but the keyboards and
    the counter, and the fifth runs the state with one slow-motion frame
    less.  A power hit that starts during the four skipped loops and is
    still held on the fifth is lost: the state that runs sees no power
    hit on that keyboard. *)
Theorem slow_motion_runs_every_fifth_loop :
  forall GHW g t1 t2 t3 t4 t5,
    paused g = false -> slowMotionFramesLeft g > 0 ->
    slowMotionNumOfSkippedFrames g = 0 ->
    exists g4 g5,
      run GHW g [EvTick t1; EvTick t2; EvTick t3; EvTick t4] = g4
      /\ state g4 = state g /\ frameCounter g4 = frameCounter g
      /\ ActList g4 = ActList g /\ history g4 = history g
      /\ codeViewerOutput g4 = codeViewerOutput g
      /\ slowMotionFramesLeft g4 = slowMotionFramesLeft g
      /\ slowMotionNumOfSkippedFrames g4 = 4
      /\ gameLoop GHW t5 g4 = runState GHW t5 g5
      /\ state g5 = state g /\ ActList g5 = ActList g
      /\ history g5 = history g
      /\ slowMotionFramesLeft g5 = slowMotionFramesLeft g - 1
      /\ slowMotionNumOfSkippedFrames g5 = 0
      /\ keyboard0 g5 = getInput (pressKeys (keys0 t5) (keyboard0 g4))
      /\ keyboard1 g5 = getInput (pressKeys (keys1 t5) (keyboard1 g4))
      /\ (powerHitKeyDown (keys0 t4) = true ->
          powerHit (input (keyboard0 g5)) = 0)
      /\ (powerHitKeyDown (keys1 t4) = true ->
          powerHit (input (keyboard1 g5)) = 0).
Proof.
  intros GHW g t1 t2 t3 t4 t5 Hp Hs H0.
  unfold run. cbn [fold_left step].
  rewrite (gameLoop_skips GHW t1 g) by (auto; rewrite H0; discriminate).
  rewrite H0.
  set (g1 := set_slowMotionNumOfSkippedFrames (0 + 1) (readKeyboards t1 g)).
  rewrite (gameLoop_skips GHW t2 g1) by (auto; discriminate).
  set (g2 := set_slowMotionNumOfSkippedFrames
               (slowMotionNumOfSkippedFrames g1 + 1) (readKeyboards t2 g1)).
  rewrite (gameLoop_skips GHW t3 g2) by (auto; discriminate).
  set (g3 := set_slowMotionNumOfSkippedFrames
               (slowMotionNumOfSkippedFrames g2 + 1) (readKeyboards t3 g2)).
  rewrite (gameLoop_skips GHW t4 g3) by (auto; discriminate).
  set (g4 := set_slowMotionNumOfSkippedFrames
               (slowMotionNumOfSkippedFrames g3 + 1) (readKeyboards t4 g3)).
  exists g4. eexists.
  split; [reflexivity|].
  do 7 (split; [reflexivity|]).
  split; [apply gameLoop_runs; auto; discriminate|].
  do 7 (split; [reflexivity|]).
  split; intros Hd; cbn [keyboard0 keyboard1 set_slowMotionNumOfSkippedFrames
                          set_slowMotionFramesLeft readKeyboards
                          set_keyboard0 set_keyboard1].
  - rewrite (proj1 (getInput_powerHit (keys0 t5) (keyboard0 g4))).
    change (powerHitKeyIsDownPrevious (keyboard0 g4))
      with (powerHitKeyDown (keys0 t4)).
    rewrite Hd. now rewrite andb_false_r.
  - rewrite (proj1 (getInput_powerHit (keys1 t5) (keyboard1 g4))).
    change (powerHitKeyIsDownPrevious (keyboard1 g4))
      with (powerHitKeyDown (keys1 t4)).
    rewrite Hd. now rewrite andb_false_r.
Qed.

Lemma slow_motion_runs_every_fifth_loop_witness :
  slowMotionNumOfSkippedFrames
    (run 216 (set_slowMotionFramesLeft 6 (newGame 15))
       [idleTick; hitTick; hitTick; hitTick]) = 4.
Proof.
  destruct (slow_motion_runs_every_fifth_loop 216
              (set_slowMotionFramesLeft 6 (newGame 15))
              (mkTick idleKeys0 idleKeys1 false 0)
              (mkTick hitKeys0 idleKeys1 false 0)
              (mkTick hitKeys0 idleKeys1 false 0)
              (mkTick hitKeys0 idleKeys1 false 0)
              (mkTick hitKeys0 idleKeys1 false 0)
              eq_refl eq_refl eq_refl)
    as (g4 & g5 & E & _ & _ & _ & _ & _ & _ & H & _).
  rewrite <- E in H. exact H.
Defined.

(** ** The claims on the serve code produced and on the end of the match *)

(** C1, as stated, fails for the serve code the controller produces: in the
    run in which the human side plays the example scenario, the log that is
    flushed is the scenario's and the text handed to the viewer for it is
    "L/3-H/2", without the leading "-". *)
Lemma C1_counterexample :
  In (ObsFlush scenarioLog "L/3-H/2")
     (history (run 216 (newGame 15) scenarioEvents))
  /\ serveCodeShown scenarioLog false = "L/3-H/2"
  /\ serveCodeShown scenarioLog false <> "-L/3-H/2".
Proof.
  split; [vm_compute; tauto|]. split; [reflexivity | discriminate].
Qed.

(** C1, amended. For the side-1 log of three ticks (-1, 0, 0) followed by
    two ticks (0, 0, 1), tokenizing and run-length compressing yields
    "-L/3-H/2", and the serve code [round()] produces from it, which is
    that string from its second character on, is "L/3-H/2"; whenever a
    reachable state has flushed this log for side 1, that is the text it
    was flushed with. *)
Theorem C1_scenario_serve_code :
  concatListAsString (encodeActList scenarioLog 1) = "-L/3-H/2"
  /\ serveCodeShown scenarioLog false = "L/3-H/2"
  /\ (forall GHW w es shown,
        In (ObsFlush scenarioLog shown) (history (run GHW (newGame w) es)) ->
        shown = "L/3-H/2" \/ shown = serveCodeShown scenarioLog true).
Proof.
  split; [reflexivity|]. split; [reflexivity|].
  intros GHW w es shown H.
  apply in_split in H as (h1 & h2 & E).
  destruct (inv_flushes _ (Inv_reachable GHW w es) _ _ _ _ E)
    as (_ & _ & _ & b & ->).
  destruct b; [now right | now left].
Qed.

Lemma C1_scenario_serve_code_witness :
  "L/3-H/2" = "L/3-H/2" \/ "L/3-H/2" = serveCodeShown scenarioLog true.
Proof.
  assert (H : In (ObsFlush scenarioLog "L/3-H/2")
                (history (run 216 (newGame 15) scenarioEvents)))
    by (vm_compute; tauto).
  exact (proj2 (proj2 C1_scenario_serve_code) 216 15 scenarioEvents
           "L/3-H/2" H).
Defined.




